(** * Skin_Disease_Detector_CNN: the prediction-to-severity pipeline

    A shallow embedding of the decision logic of the application:
    - [config/settings.py]        (constants and defaults),
    - [utils/model_utils.py]      ([load_class_names], [predict_image],
                                   [compute_severity]),
    - [utils/image_utils.py]      ([validate_uploaded_file]),
    - [services/gemini_service.py] ([get_preventive_measures_from_gemini],
                                   [get_fallback_measures]).

    Numbers.  The decoder [predict_image] is embedded twice.  The first
    embedding works over exact rationals [Q]: every finite float is a
    rational, and the comparisons [<], [<=] on finite floats agree with the
    comparisons of their values; it carries the properties that do not
    depend on how a sum or a quotient is rounded (which index wins, which
    labels are used, what the mapping holds).  The second embedding, module
    [IEEE], works over binary floating-point numbers with correctly rounded
    operations, signed zeros, infinities and NaN ([spec_float]); it carries
    the properties that do depend on rounding and overflow: the test on the
    sum, the uniform vector, the sum of the probabilities.

    Strings.  A Python [str] is modelled by a Stdlib [string]; the character
    classes used by [lower] and [strip] are those of ASCII text. *)

From Stdlib Require Import ZArith QArith Qabs Bool List String Ascii Lia.
From Stdlib Require Import SpecFloat.
From Stdlib Require Import DecimalString.
From Stdlib Require DecimalNat DecimalFacts Finite.
Import ListNotations.

Local Open Scope string_scope.
Local Open Scope Q_scope.

(** ** config/settings.py *)

Module Settings.

(** [MAX_FILE_SIZE = 10 * 1024 * 1024]. *)
Definition MAX_FILE_SIZE : Z := (10 * 1024 * 1024)%Z.

(** [SUPPORTED_FORMATS = ['jpg', 'jpeg', 'png']]. *)
Definition SUPPORTED_FORMATS : list string := ["jpg"; "jpeg"; "png"].

(** The values that [settings.py] reads from the secrets store, each with
    the default it falls back to. *)
Record t : Type := mk {
  THRESHOLD_MILD     : Q;
  THRESHOLD_SEVERE   : Q;
  HIGH_RISK_DISEASES : list string;
  GEMINI_API_KEY     : option string
}.

(** The configuration when the secrets store is empty:
    [0.45], [0.80], [[]], and no API key. *)
Definition defaults : t :=
  {| THRESHOLD_MILD     := 0.45;
     THRESHOLD_SEVERE   := 0.80;
     HIGH_RISK_DISEASES := [];
     GEMINI_API_KEY     := None |}.

End Settings.

(** ** Python values and helpers *)

(** A call either returns a value or raises an exception (named by its
    message). *)
Inductive outcome (A : Type) : Type :=
| Return (a : A)
| Raise (e : string).
Arguments Return {A} a.
Arguments Raise {A} e.

(** [x in xs] for a list of strings. *)
Definition str_in (x : string) (xs : list string) : bool :=
  existsb (String.eqb x) xs.

(** [a < b] on numbers, as a boolean. *)
Definition Qltb (a b : Q) : bool := negb (Qle_bool b a).

(** [str(i)] for a non-negative integer: its decimal form. *)
Definition str_of_nat (i : nat) : string :=
  NilZero.string_of_uint (Nat.to_uint i).

Definition str_of_Z (z : Z) : string :=
  NilZero.string_of_int (Z.to_int z).

(** A [dict] with string keys, in insertion order.  Assigning to a key that
    is present replaces its value in place; a new key goes to the end. *)
Module Dict.

Definition t (V : Type) : Type := list (string * V).

Definition empty {V} : t V := [].

Fixpoint get {V} (d : t V) (k : string) : option V :=
  match d with
  | [] => None
  | (k', v) :: d' => if String.eqb k k' then Some v else get d' k
  end.

Fixpoint set {V} (d : t V) (k : string) (v : V) : t V :=
  match d with
  | [] => [(k, v)]
  | (k', v') :: d' =>
      if String.eqb k k' then (k', v) :: d' else (k', v') :: set d' k v
  end.

Definition keys {V} (d : t V) : list string := map fst d.
Definition values {V} (d : t V) : list V := map snd d.
Definition len {V} (d : t V) : nat := List.length d.

End Dict.

(** *** [str] methods *)

Definition isupper (c : ascii) : bool :=
  let n := nat_of_ascii c in (65 <=? n)%nat && (n <=? 90)%nat.

Definition lower_chr (c : ascii) : ascii :=
  if isupper c then ascii_of_nat (nat_of_ascii c + 32) else c.

(** [s.lower()] *)
Fixpoint lower (s : string) : string :=
  match s with
  | EmptyString => EmptyString
  | String c s' => String (lower_chr c) (lower s')
  end.

(** [s.split(sep)] for a one-character separator: never the empty list. *)
Fixpoint split (sep : ascii) (s : string) : list string :=
  match s with
  | EmptyString => [EmptyString]
  | String c s' =>
      if Ascii.eqb c sep then EmptyString :: split sep s'
      else match split sep s' with
           | [] => [String c EmptyString]
           | piece :: rest => String c piece :: rest
           end
  end.

(** Whitespace as [str.strip()] sees it in ASCII text: TAB, LF, VT, FF, CR,
    the separators FS, GS, RS, US, and the space. *)
Definition isspace (c : ascii) : bool :=
  let n := nat_of_ascii c in
  ((9 <=? n)%nat && (n <=? 13)%nat) || ((28 <=? n)%nat && (n <=? 32)%nat).

Fixpoint lstrip (s : string) : string :=
  match s with
  | EmptyString => EmptyString
  | String c s' => if isspace c then lstrip s' else s
  end.

Fixpoint rstrip (s : string) : string :=
  match s with
  | EmptyString => EmptyString
  | String c s' =>
      match rstrip s' with
      | EmptyString => if isspace c then EmptyString else String c EmptyString
      | r => String c r
      end
  end.

(** [s.strip()] *)
Definition strip (s : string) : string := rstrip (lstrip s).

(** [s[n:]] *)
Fixpoint slice_from (n : nat) (s : string) : string :=
  match n, s with
  | O, _ => s
  | S _, EmptyString => EmptyString
  | S n', String _ s' => slice_from n' s'
  end.

(** [s.startswith(p)] is [String.prefix p s]; with a tuple of prefixes it
    holds when one of them is a prefix. *)
Definition startswith_any (ps : list string) (s : string) : bool :=
  existsb (fun p => String.prefix p s) ps.

(** [pat in s] for strings. *)
Fixpoint contains (pat s : string) : bool :=
  String.prefix pat s ||
  match s with
  | EmptyString => false
  | String _ s' => contains pat s'
  end.

(** [c in s] for a character. *)
Fixpoint has_chr (c : ascii) (s : string) : bool :=
  match s with
  | EmptyString => false
  | String c' s' => Ascii.eqb c' c || has_chr c s'
  end.

(** [s.replace(old, new)] for a non-empty [old]: occurrences are replaced
    from left to right and do not overlap.  [skip] counts the characters of
    a matched occurrence that are still to be dropped. *)
Fixpoint replace_from (old new : string) (skip : nat) (s : string) : string :=
  match s with
  | EmptyString => EmptyString
  | String c s' =>
      match skip with
      | S k => replace_from old new k s'
      | O =>
          if String.prefix old s
          then new ++ replace_from old new (String.length old - 1) s'
          else String c (replace_from old new O s')
      end
  end.

Definition replace (old new s : string) : string := replace_from old new 0 s.

(** [sep.join(xs)] is [String.concat sep xs]. *)

(** The line feed. *)
Definition LF : ascii := ascii_of_nat 10.

(** *** Number formatting *)

(** The integer nearest to [num / den] ([den > 0]), ties to the even one. *)
Definition round_half_even (num den : Z) : Z :=
  let q := (num / den)%Z in
  let r := (num mod den)%Z in
  match (2 * r ?= den)%Z with
  | Lt => q
  | Gt => (q + 1)%Z
  | Eq => if Z.even q then q else (q + 1)%Z
  end.

(** [f"{x:.1f}"] for the non-negative number [x = num / den]. *)
Definition format_1f (num den : Z) : string :=
  let tenths := round_half_even (10 * num) den in
  str_of_Z (tenths / 10) ++ "." ++ str_of_Z (tenths mod 10).

(** ** utils/model_utils.py: [compute_severity] *)

Section Severity.

Variable cfg : Settings.t.

(** The optional third argument defaults to [HIGH_RISK_DISEASES].  The
    literals [0.45] and [0.80] denote the doubles just above the decimals,
    and no double lies between a decimal and its double, so for a float
    confidence the tests against the doubles and against the decimals
    agree. *)
Definition compute_severity
    (confidence : Q) (disease_name : string)
    (high_risk_diseases : option (list string)) : string :=
  let high_risk_diseases :=
    match high_risk_diseases with
    | None => Settings.HIGH_RISK_DISEASES cfg
    | Some l => l
    end in
  if str_in disease_name high_risk_diseases then "severe"
  else if Qltb confidence (Settings.THRESHOLD_MILD cfg) then "mild"
  else if Qltb confidence (Settings.THRESHOLD_SEVERE cfg) then "moderate"
  else "severe".

End Severity.

(** ** utils/model_utils.py: [load_class_names] *)

(** A value as [json.load] returns it. *)
#[warnings="-register-all"]
Inductive json : Type :=
| JNull
| JBool (b : bool)
| JNum (q : Q)
| JStr (s : string)
| JList (l : list json)
| JDict (d : Dict.t json).

(** What is found at [CLASSES_JSON]: nothing, a file that is not JSON, or a
    file holding a JSON value. *)
Inductive classes_file : Type :=
| Missing
| Malformed
| Content (data : json).

(** [[data[str(i)] for i in range(len(data))]]: [None] when a lookup raises
    [KeyError]. *)
Fixpoint by_index (data : Dict.t json) (indices : list nat)
  : option (list json) :=
  match indices with
  | [] => Some []
  | i :: rest =>
      match Dict.get data (str_of_nat i) with
      | None => None
      | Some v =>
          match by_index data rest with
          | None => None
          | Some vs => Some (v :: vs)
          end
      end
  end.

(** The [st.cache_resource] decorator memoises the call and does not change
    what a call returns; the function below is one uncached call. *)
Definition load_class_names (file : classes_file) : outcome (list json) :=
  match file with
  | Missing => Return []
  | Malformed => Raise "JSONDecodeError"
  | Content data =>
      match data with
      | JDict d =>
          match Dict.get d "classes" with
          | Some (JList classes) => Return classes
          | _ =>
              match by_index d (seq 0 (Dict.len d)) with
              | Some l => Return l
              | None => Return (Dict.values d)
              end
          end
      | JList l => Return l
      | _ => Return []
      end
  end.

(** The keys of an object are the decimal forms of [0 .. N-1], [N] being
    the number of its entries. *)
Definition clean_range (d : Dict.t json) : Prop :=
  forall k, In k (Dict.keys d) <->
            exists i, (i < Dict.len d)%nat /\ k = str_of_nat i.

(** The object has no ["classes"] entry holding a list. *)
Definition no_classes_list (d : Dict.t json) : Prop :=
  forall l, Dict.get d "classes" <> Some (JList l).

(** ** utils/model_utils.py: [predict_image] *)

(** [np.sum] of a vector, as the sum of its numbers without rounding; the
    rounded sum is the parameter [np_sum] of module [IEEE] below. *)
Definition np_sum (v : list Q) : Q := fold_left Qplus v 0.

(** [np.argmax]: scanning from the left, the index moves only to a strictly
    greater entry, so the first occurrence of the maximum is returned; an
    empty vector raises [ValueError] with the text below. *)
Fixpoint argmax_from (best_i : nat) (best : Q) (i : nat) (v : list Q) : nat :=
  match v with
  | [] => best_i
  | x :: v' =>
      if Qltb best x then argmax_from i x (S i) v'
      else argmax_from best_i best (S i) v'
  end.

Definition np_argmax (v : list Q) : outcome nat :=
  match v with
  | [] => Raise "attempt to get argmax of an empty sequence"
  | x :: v' => Return (argmax_from 0 x 1 v')
  end.

(** [enumerate(v)] *)
Definition enumerate {A} (v : list A) : list (nat * A) :=
  combine (seq 0 (List.length v)) v.

(** The truth value of a list: non-empty. *)
Definition truthy {A} (l : list A) : bool :=
  match l with [] => false | _ :: _ => true end.

Record PredictionResult : Type := mkPrediction {
  class_id      : nat;
  disease       : string;
  confidence    : Q;
  probabilities : Dict.t Q
}.

(** Lines 100-104: the scores divided by their sum, or the uniform vector
    when the sum is not positive; sum and quotients without rounding
    ([IEEE.normalize_scores] has them rounded). *)
Definition normalize_scores (preds : list Q) : list Q :=
  let s := np_sum preds in
  if Qle_bool s 0
  then map (fun _ => 1 / inject_Z (Z.of_nat (List.length preds))) preds
  else map (fun p => p / s) preds.

(** Lines 113-116: the mapping from label to probability, filled in index
    order. *)
Definition build_probs_map {V} (class_names : list string) (probs : list V)
  : Dict.t V :=
  fold_left
    (fun probs_map ip =>
       let '(i, p) := ip in
       let name :=
         if truthy class_names && (i <? List.length class_names)%nat
         then nth i class_names ""
         else str_of_nat i in
       Dict.set probs_map name p)
    (enumerate probs) Dict.empty.

(** [predict_image] from the flattened model output [preds] on (lines
    100-123); preprocessing and the model call before that are external. *)
Definition predict_image (preds : list Q) (class_names : list string)
  : outcome PredictionResult :=
  let probs := normalize_scores preds in
  match np_argmax probs with
  | Raise e => Raise e
  | Return top_idx =>
      let top_conf := nth top_idx probs 0 in
      let top_label :=
        if truthy class_names && (top_idx <? List.length class_names)%nat
        then nth top_idx class_names ""
        else str_of_nat top_idx in
      let probs_map := build_probs_map class_names probs in
      Return {| class_id := top_idx;
                disease := top_label;
                confidence := top_conf;
                probabilities := probs_map |}
  end.

(** The label rule in the words of the specification: the registry entry at
    the index when there is one, else the decimal form of the index. *)
Definition registry_label (class_names : list string) (i : nat) : string :=
  match nth_error class_names i with
  | Some name => name
  | None => str_of_nat i
  end.

(** One assignment of the loop, with the label rule folded. *)
Definition assign {V} (class_names : list string) (d : Dict.t V)
    (ip : nat * V) : Dict.t V :=
  Dict.set d (registry_label class_names (fst ip)) (snd ip).

(** The top class in the words of the specification: an index of a
    largest entry such that every earlier entry is strictly smaller. *)
Definition first_argmax (v : list Q) (k : nat) : Prop :=
  (k < List.length v)%nat /\
  (forall j, (j < List.length v)%nat -> nth j v 0 <= nth k v 0) /\
  (forall j, (j < k)%nat -> nth j v 0 < nth k v 0).

(** ** utils/model_utils.py: [predict_image] in floating-point arithmetic

    Lines 100-123 once more, now over the floating-point numbers that the
    array [preds] holds.  The format of the array is a parameter: [prec]
    bits of precision and exponent bound [emax], which is [24] and [128]
    for the float32 output of a Keras model and [53] and [1024] for
    float64.  Division is the correctly rounded division of the format;
    [float(...)] keeps the value, since every number of either format is
    a number of Python's [float]. *)

Module IEEE.

Definition is_nan (x : spec_float) : bool :=
  match x with S754_nan => true | _ => false end.

(** The number a float stands for, when it is finite. *)
Definition value (x : spec_float) : option Q :=
  match x with
  | S754_zero _ => Some 0
  | S754_finite s m e => Some (Qred (inject_Z (cond_Zopp s (Zpos m)) * 2 ^ e))
  | S754_infinity _ => None
  | S754_nan => None
  end.

(** The sum of finite floats as numbers, without any rounding. *)
Definition exact_sum (v : list spec_float) : option Q :=
  fold_left
    (fun acc x =>
       match acc, value x with
       | Some a, Some b => Some (Qred (a + b))
       | _, _ => None
       end)
    v (Some 0).

Record PredictionResult : Type := mkPrediction {
  class_id      : nat;
  disease       : string;
  confidence    : spec_float;
  probabilities : Dict.t spec_float
}.

Section Format.

Variables prec emax : Z.

(** [np.sum] on an array of the format.  NumPy chooses the order of the
    additions (left to right for fewer than eight elements, in blocks and
    pairs beyond that), so the function is left open here; what is proved
    for every [np_sum] holds for the one NumPy computes. *)
Variable np_sum : list spec_float -> spec_float.

(** An integer as a number of the format (rounded to nearest, ties to
    even, when it has more than [prec] significant bits). *)
Definition of_Z (z : Z) : spec_float := binary_normalize prec emax z 0 false.

(** [np.argmax] on floats: the scan moves to an entry when [entry <= best]
    is false, which is the case for a greater entry and for NaN, and it
    stops at the first NaN; an empty vector raises. *)
Fixpoint argmax_from (best_i : nat) (best : spec_float) (i : nat)
    (v : list spec_float) : nat :=
  match v with
  | [] => best_i
  | x :: v' =>
      if SFleb x best then argmax_from best_i best (S i) v'
      else if is_nan x then i
      else argmax_from i x (S i) v'
  end.

Definition np_argmax (v : list spec_float) : outcome nat :=
  match v with
  | [] => Raise "attempt to get argmax of an empty sequence"
  | x :: v' => Return (if is_nan x then 0%nat else argmax_from 0 x 1 v')
  end.

(** Lines 100-104:
    [s = float(np.sum(preds))], then
    [np.ones_like(preds) / len(preds)] if [s <= 0] else [preds / s].
    The comparison is that of floats: it holds for both zeros and for
    negative numbers and infinity, and fails for NaN. *)
Definition normalize_scores (preds : list spec_float) : list spec_float :=
  let s := np_sum preds in
  if SFleb s (S754_zero false)
  then map (fun _ => SFdiv prec emax (of_Z 1)
                       (of_Z (Z.of_nat (List.length preds)))) preds
  else map (fun p => SFdiv prec emax p s) preds.

(** Lines 106-123. *)
Definition predict_image (preds : list spec_float)
    (class_names : list string) : outcome PredictionResult :=
  let probs := normalize_scores preds in
  match np_argmax probs with
  | Raise e => Raise e
  | Return top_idx =>
      let top_conf := nth top_idx probs S754_nan in
      let top_label :=
        if truthy class_names && (top_idx <? List.length class_names)%nat
        then nth top_idx class_names ""
        else str_of_nat top_idx in
      let probs_map := build_probs_map class_names probs in
      Return {| class_id := top_idx;
                disease := top_label;
                confidence := top_conf;
                probabilities := probs_map |}
  end.

End Format.

(** The sum as NumPy computes it for fewer than eight elements: from left
    to right, starting from [-0.0]. *)
Definition sum_left_to_right (prec emax : Z) (v : list spec_float)
  : spec_float :=
  fold_left (SFadd prec emax) v (S754_zero true).

(** The float32 number nearest to an integer. *)
Definition float32 (z : Z) : spec_float := of_Z 24 128 z.

End IEEE.

(** ** utils/image_utils.py: [validate_uploaded_file] *)

Record UploadedFile : Type := mkUpload {
  name : string;
  size : Z
}.

(** [uploaded_file.name.split('.')[-1].lower()] *)
Definition file_extension (file_name : string) : string :=
  lower (last (split "." file_name) "").

(** The message of an oversized upload.  [size/1024/1024] is exact in
    binary floating point for every size below [2^53], so [:.1f] rounds the
    true quotient; [MAX_FILE_SIZE/1024/1024] is the float [10.0]. *)
Definition too_large_message (size : Z) : string :=
  "File size (" ++ format_1f size (1024 * 1024) ++
  "MB) exceeds limit (" ++ "10.0" ++ "MB)".

Definition unsupported_message : string :=
  "Unsupported format. Please use: " ++
  String.concat ", " Settings.SUPPORTED_FORMATS.

Definition validate_uploaded_file (uploaded_file : option UploadedFile)
  : bool * string :=
  match uploaded_file with
  | None => (false, "No file uploaded")
  | Some f =>
      if (Settings.MAX_FILE_SIZE <? size f)%Z
      then (false, too_large_message (size f))
      else
        if negb (str_in (file_extension (name f)) Settings.SUPPORTED_FORMATS)
        then (false, unsupported_message)
        else (true, "Valid file")
  end.

(** ** services/gemini_service.py *)

Record AdviceResult : Type := mkAdvice {
  via         : string;
  bullets     : list string;
  consult     : string;
  advice_text : string
}.

Definition get_fallback_measures : AdviceResult :=
  {| via := "fallback";
     bullets :=
       [ "Keep the area clean and dry; wash gently with mild soap.";
         "Avoid scratching or picking at the area to reduce infection risk.";
         "Use gentle, fragrance-free moisturizers and avoid known irritants." ];
     consult :=
       "Consult a healthcare professional if symptoms worsen or persist.";
     advice_text :=
       "Keep the area clean and dry. Avoid scratching. Use gentle moisturizers."
  |}.

(** [[line.strip() for line in text.split('\n') if line.strip()]] *)
Definition response_lines (text : string) : list string :=
  map strip
    (filter (fun line => negb (String.eqb (strip line) ""))
            (split LF text)).

(** One turn of the loop over the lines; the state is
    [(bullets, consult_line)]. *)
Definition parse_line (st : list string * string) (line : string)
  : list string * string :=
  let '(bullets, consult_line) := st in
  if startswith_any ["1."; "2."; "3."] line
  then ((bullets ++ [strip (slice_from 2 line)])%list, consult_line)
  else if contains "doctor" (lower line)
  then (bullets, strip (replace "When to see a doctor:" "" line))
  else (bullets, consult_line).

Definition parse_response (text : string) : list string * string :=
  fold_left parse_line (response_lines text) ([], "").

(** The truth value of the configured key: present and non-empty. *)
Definition key_set (key : option string) : bool :=
  match key with
  | Some k => negb (String.eqb k "")
  | None => false
  end.

(** The resolver.  [service] is what the attempt to reach the external
    service ends in: the response text, or an exception (import, network,
    time-out, blocked response).  The disease, the confidence and the image
    only feed the prompt, which the service alone reads.  The second
    component lists the warnings shown. *)
Definition get_preventive_measures_from_gemini
    (cfg : Settings.t) (service : outcome string)
  : AdviceResult * list string :=
  if key_set (Settings.GEMINI_API_KEY cfg) then
    match service with
    | Return text =>
        let '(bullets, consult_line) := parse_response text in
        if truthy bullets
        then ({| via := "gemini";
                 bullets := bullets;
                 consult := consult_line;
                 advice_text :=
                   String.concat " " bullets ++ " " ++ consult_line |},
              [])
        else (get_fallback_measures, [])
    | Raise e =>
        (get_fallback_measures, ["Gemini API call failed: " ++ e])
    end
  else (get_fallback_measures, []).

(** The lines of a response that the loop turns into bullets: the
    stripped non-blank lines that start with [1.], [2.] or [3.]. *)
Definition numbered_lines (text : string) : list string :=
  filter (startswith_any ["1."; "2."; "3."]) (response_lines text).

(** The text of a numbered line after its two-character prefix. *)
Definition bullet_of (line : string) : string := strip (slice_from 2 line).

(** [" ".join(bullets) + " " + consult_line] *)
Definition joined_text (bullets : list string) (consult_line : string)
  : string :=
  String.concat " " bullets ++ " " ++ consult_line.

(** * Further code of the application

    The definitions from here on embed what the rest of the cited files
    and their caller do: [download_file] and [load_model]
    ([utils/model_utils.py]), [preprocess_image_bytes] and
    [image_file_to_base64] ([utils/image_utils.py]), and
    [perform_analysis] ([streamlit_app.py]). *)

(** ** Orderings and predicates used to state further properties *)

(** The severity tiers in increasing order of gravity. *)
Definition tier_rank (tier : string) : nat :=
  if String.eqb tier "mild" then 0
  else if String.eqb tier "moderate" then 1
  else 2.

(** The lines of a response that set the consult line: the stripped
    non-blank lines that are not numbered and mention a doctor. *)
Definition doctor_lines (text : string) : list string :=
  filter (fun line => negb (startswith_any ["1."; "2."; "3."] line) &&
                      contains "doctor" (lower line))
         (response_lines text).

(** The consult text taken from such a line. *)
Definition consult_of (line : string) : string :=
  strip (replace "When to see a doctor:" "" line).

(** The object that stores a list under the decimal forms of its
    positions. *)
Definition index_object (l : list json) : Dict.t json :=
  map (fun iv => (str_of_nat (fst iv), snd iv)) (enumerate l).

(** ** utils/model_utils.py: [download_file] and [load_model] *)

(** A byte string; the files of the working directory by path.  The calls
    to [mkdir] (with [exist_ok=True]) change no file and directories are
    not tracked. *)
Definition bytes : Type := string.
Definition filesystem : Type := Dict.t bytes.

Definition MODEL_H5 : string := "models/best_model.h5".
Definition MODEL_PKL : string := "models/best_model.pkl".

(** What [requests.get(url, stream=True, timeout=60)] hands back once the
    connection is made: the error that [raise_for_status] raises, if the
    status is not a success; the chunks that [iter_content] yields; and the
    exception that ends the stream before its end, if any. *)
Record http_response : Type := mkResponse {
  status_error : option string;
  chunks       : list bytes;
  broken       : option string
}.

(** The network: for each URL the response, or the exception raised while
    connecting (refused, timed out). *)
Definition network : Type := string -> outcome http_response.

(** The loop [for chunk in ...: if chunk: f.write(chunk)] on a file opened
    with ["wb"], from the content written so far. *)
Definition write_chunks (received : list bytes) (content : bytes) : bytes :=
  fold_left
    (fun written chunk =>
       if String.eqb chunk "" then written else written ++ chunk)
    received content.

Definition download_file (net : network) (url dest_path : string)
    (fs : filesystem) : outcome string * filesystem :=
  match net url with
  | Raise e => (Raise e, fs)
  | Return r =>
      match status_error r with
      | Some e => (Raise e, fs)
      | None =>
          let fs' := Dict.set fs dest_path (write_chunks (chunks r) "") in
          match broken r with
          | Some e => (Raise e, fs')
          | None => (Return dest_path, fs')
          end
      end
  end.

(** A message shown on the page. *)
Inductive ui_message : Type :=
| Warning (text : string)
| Error (text : string).

(** What [load_model] depends on besides the files: whether [tensorflow]
    imports (else the text of the [ImportError]), whether [tensorflow_cpu]
    does, the configured [WEIGHTS_URL], and the network. *)
Record loader_env : Type := mkLoaderEnv {
  tensorflow_error : option string;
  tensorflow_cpu   : bool;
  WEIGHTS_URL      : option string;
  net_of           : network
}.

Section ModelLoading.

(** A loaded model, and the two deserialisers, which read a file content:
    [tf.keras.models.load_model] and [pickle.load]. *)
Variable model : Type.
Variable keras_load : bytes -> outcome model.
Variable pickle_load : bytes -> outcome model.

(** [tf.keras.models.load_model(str(MODEL_H5), compile=False)] *)
Definition load_h5 (fs : filesystem) : outcome model :=
  match Dict.get fs MODEL_H5 with
  | Some content => keras_load content
  | None => Raise "No file or directory found at models/best_model.h5"
  end.

(** The third attempt of [load_model]: the pickled model, then
    [FileNotFoundError]. *)
Definition load_from_pickle (fs : filesystem) (log : list ui_message)
  : outcome model * filesystem * list ui_message :=
  match Dict.get fs MODEL_PKL with
  | Some content =>
      match pickle_load content with
      | Return m => (Return m, fs, log)
      | Raise e =>
          (Raise "No model artifact found.", fs,
           (log ++ [Warning ("Failed to unpickle models/best_model.pkl: "
                             ++ e)])%list)
      end
  | None => (Raise "No model artifact found.", fs, log)
  end.

(** The second attempt, made when [WEIGHTS_URL] is set and not empty:
    download to [MODEL_H5] and load it; then go on. *)
Definition load_from_url (env : loader_env) (fs : filesystem)
    (log : list ui_message)
  : outcome model * filesystem * list ui_message :=
  match WEIGHTS_URL env with
  | Some url =>
      if String.eqb url "" then load_from_pickle fs log
      else
        match download_file (net_of env) url MODEL_H5 fs with
        | (Raise e, fs') =>
            load_from_pickle fs'
              (log ++ [Warning
                 ("Failed to download/load model from WEIGHTS_URL: " ++ e)])
        | (Return _, fs') =>
            match load_h5 fs' with
            | Return m => (Return m, fs', log)
            | Raise e =>
                load_from_pickle fs'
                  (log ++ [Warning
                     ("Failed to download/load model from WEIGHTS_URL: "
                      ++ e)])
            end
        end
  | None => load_from_pickle fs log
  end.

(** The attempts of [load_model], after the imports. *)
Definition load_artifacts (env : loader_env) (fs : filesystem)
  : outcome model * filesystem * list ui_message :=
  match Dict.get fs MODEL_H5 with
  | Some content =>
      match keras_load content with
      | Return m => (Return m, fs, [])
      | Raise e =>
          load_from_url env fs
            [Warning ("Failed to load models/best_model.h5: " ++ e)]
      end
  | None => load_from_url env fs []
  end.

(** [load_model], one uncached call.  When neither [tensorflow] nor
    [tensorflow_cpu] imports, an error is shown and [st.stop()] ends the
    run by raising [StopException]. *)
Definition load_model (env : loader_env) (fs : filesystem)
  : outcome model * filesystem * list ui_message :=
  match tensorflow_error env, tensorflow_cpu env with
  | Some e, false =>
      (Raise "StopException", fs,
       [Error ("Could not import TensorFlow. Details: " ++ e)])
  | _, _ => load_artifacts env fs
  end.

End ModelLoading.

(** *** The three attempts of [load_model], one by one *)

Section LoadAttempts.

Variable model : Type.
Variable keras_load : bytes -> outcome model.
Variable pickle_load : bytes -> outcome model.

(** What the download attempt alone yields: a failure when no URL is
    configured, the error of the download, or the outcome of loading the
    downloaded file. *)
Definition url_attempt (env : loader_env) (fs : filesystem)
  : outcome model :=
  match WEIGHTS_URL env with
  | Some url =>
      if String.eqb url "" then Raise "WEIGHTS_URL is empty"
      else
        match download_file (net_of env) url MODEL_H5 fs with
        | (Raise e, _) => Raise e
        | (Return _, fs') => load_h5 model keras_load fs'
        end
  | None => Raise "WEIGHTS_URL is not set"
  end.

(** What the pickle attempt alone yields. *)
Definition pickle_attempt (fs : filesystem) : outcome model :=
  match Dict.get fs MODEL_PKL with
  | Some content => pickle_load content
  | None => Raise "models/best_model.pkl does not exist"
  end.

(** The first success among three outcomes, or the final error. *)
Definition first_success (a b c : outcome model) : outcome model :=
  match a, b, c with
  | Return m, _, _ => Return m
  | Raise _, Return m, _ => Return m
  | Raise _, Raise _, Return m => Return m
  | Raise _, Raise _, Raise _ => Raise "No model artifact found."
  end.

(** One of the two imports of TensorFlow works. *)
Definition tensorflow_usable (env : loader_env) : Prop :=
  tensorflow_error env = None \/ tensorflow_cpu env = true.

End LoadAttempts.

(** ** streamlit_app.py: [perform_analysis] *)

(** What the page is told, in order: a progress value, a status text, the
    clearing of either widget, a message.  [st.progress(0)] is the first
    progress value and [st.empty()], which creates the status placeholder
    with nothing in it, is a cleared status. *)
Inductive ui_event : Type :=
| Progress (percent : Z)
| Status (text : string)
| ClearProgress
| ClearStatus
| Message (m : ui_message).

(** An entry of [st.session_state.prediction_history]. *)
Record history_entry : Type := mkEntry {
  entry_disease    : string;
  entry_confidence : Q;
  entry_severity   : string
}.

(** [{**result, 'severity': severity, 'measures': measures}] *)
Record AnalysisResult : Type := mkAnalysis {
  prediction : PredictionResult;
  severity   : string;
  measures   : AdviceResult
}.

(** [predict_image] as a whole: [inference] is what preprocessing, the
    model call and the flattening end in, a score vector or an exception. *)
Definition predict_image_call (inference : outcome (list Q))
    (class_names : list string) : outcome PredictionResult :=
  match inference with
  | Raise e => Raise e
  | Return preds => predict_image preds class_names
  end.

(** [perform_analysis]: the returned value ([None] after a failure), the
    events sent to the page, and the prediction history afterwards. *)
Definition perform_analysis
    (cfg : Settings.t) (inference : outcome (list Q))
    (class_names : list string) (service : outcome string)
    (history : list history_entry)
  : option AnalysisResult * list ui_event * list history_entry :=
  let started :=
    [ Progress 0; ClearStatus;
      Status "🔄 Preprocessing image..."; Progress 25;
      Status "🧠 Running AI analysis..."; Progress 50 ] in
  match predict_image_call inference class_names with
  | Raise e =>
      (None,
       (started ++ [Message (Error ("❌ Analysis failed: " ++ e))])%list,
       history)
  | Return result =>
      let severity :=
        compute_severity cfg (confidence result) (disease result) None in
      let '(measures, warnings) :=
        get_preventive_measures_from_gemini cfg service in
      (Some {| prediction := result;
               severity := severity;
               measures := measures |},
       (started ++
        [ Status "📊 Computing severity..."; Progress 75;
          Status "💡 Generating recommendations..."; Progress 90 ] ++
        map (fun w => Message (Warning w)) warnings ++
        [ Progress 100; Status "✅ Analysis complete!";
          ClearProgress; ClearStatus ])%list,
       (history ++
        [ {| entry_disease := disease result;
             entry_confidence := confidence result;
             entry_severity := severity |} ])%list)
  end.

(** ** utils/image_utils.py: [preprocess_image_bytes] *)

(** An RGB image as numpy receives it from PIL: rows of pixels, each pixel
    three bytes. *)
Definition rgb_image : Type := list (list (ascii * ascii * ascii)).

(** [astype("float32") / 255.0] on one byte. *)
Definition sample (b : ascii) : Q :=
  inject_Z (Z.of_N (N_of_ascii b)) / 255.

Section Preprocessing.

(** [Image.open(io.BytesIO(image_bytes)).convert("RGB").resize(IMAGE_SIZE)]:
    the decoded and resized image, or the exception of the decoder. *)
Variable open_rgb_resized : bytes -> outcome rgb_image.

Definition preprocess_image_bytes (image_bytes : bytes)
  : outcome (list (list (list Q))) :=
  match open_rgb_resized image_bytes with
  | Raise e => Raise e
  | Return img =>
      Return
        (map (map (fun px =>
                     let '(r, g, b) := px in [sample r; sample g; sample b]))
             img)
  end.

End Preprocessing.

(** ** utils/image_utils.py: [image_file_to_base64] *)

Definition b64_alphabet : string :=
  "ABCDEFGHIJKLMNOPQRSTUVWXYZabcdefghijklmnopqrstuvwxyz0123456789+/".

(** The character that stands for a six-bit value. *)
Definition b64_char (n : N) : ascii :=
  match String.get (N.to_nat n) b64_alphabet with
  | Some c => c
  | None => "="%char
  end.

(** [base64.b64encode]: three bytes become four characters; one or two
    bytes left at the end are padded with [=]. *)
Fixpoint b64encode (data : bytes) : string :=
  match data with
  | EmptyString => EmptyString
  | String a EmptyString =>
      let x := N_of_ascii a in
      String (b64_char (x / 4))
        (String (b64_char ((x mod 4) * 16)) "==")
  | String a (String b EmptyString) =>
      let x := N_of_ascii a in
      let y := N_of_ascii b in
      String (b64_char (x / 4))
        (String (b64_char ((x mod 4) * 16 + y / 16))
           (String (b64_char ((y mod 16) * 4)) "="))
  | String a (String b (String c rest)) =>
      let x := N_of_ascii a in
      let y := N_of_ascii b in
      let z := N_of_ascii c in
      String (b64_char (x / 4))
        (String (b64_char ((x mod 4) * 16 + y / 16))
           (String (b64_char ((y mod 16) * 4 + z / 64))
              (String (b64_char (z mod 64)) (b64encode rest))))
  end.

(** [base64.b64encode(image_bytes).decode("utf-8")]: the encoding is ASCII
    text, which decodes to itself. *)
Definition image_file_to_base64 (image_bytes : bytes) : string :=
  b64encode image_bytes.

(** The six-bit value of a character of the alphabet. *)
Fixpoint index_of (c : ascii) (s : string) : option N :=
  match s with
  | EmptyString => None
  | String c' s' =>
      if Ascii.eqb c c' then Some 0%N
      else option_map N.succ (index_of c s')
  end.

Definition b64_value (c : ascii) : option N := index_of c b64_alphabet.

(** A decoder for padded base64 text, used to state that the encoding
    loses nothing. *)
Fixpoint b64decode (text : string) : option bytes :=
  match text with
  | EmptyString => Some EmptyString
  | String c1 (String c2 (String c3 (String c4 rest))) =>
      match b64_value c1, b64_value c2 with
      | Some s1, Some s2 =>
          let b1 := ascii_of_N (s1 * 4 + s2 / 16) in
          if Ascii.eqb c3 "=" then
            if Ascii.eqb c4 "=" && String.eqb rest ""
            then Some (String b1 EmptyString) else None
          else
            match b64_value c3 with
            | Some s3 =>
                let b2 := ascii_of_N ((s2 mod 16) * 16 + s3 / 4) in
                if Ascii.eqb c4 "=" then
                  if String.eqb rest ""
                  then Some (String b1 (String b2 EmptyString)) else None
                else
                  match b64_value c4 with
                  | Some s4 =>
                      let b3 := ascii_of_N ((s3 mod 4) * 64 + s4) in
                      option_map
                        (fun r => String b1 (String b2 (String b3 r)))
                        (b64decode rest)
                  | None => None
                  end
            | None => None
            end
      | _, _ => None
      end
  | _ => None
  end.

(** ** Basic facts about the helpers *)

Lemma str_in_In (x : string) (xs : list string) :
  str_in x xs = true <-> In x xs.
Proof.
  unfold str_in. rewrite existsb_exists. split.
  - intros [y [Hy He]]. apply String.eqb_eq in He. now subst.
  - intros H. exists x. split; [assumption | apply String.eqb_refl].
Qed.

Lemma str_in_not_In (x : string) (xs : list string) :
  str_in x xs = false <-> ~ In x xs.
Proof.
  rewrite <- str_in_In. destruct (str_in x xs); intuition congruence.
Qed.

Lemma Qltb_lt (a b : Q) : Qltb a b = true <-> a < b.
Proof.
  unfold Qltb. rewrite negb_true_iff. split; intros H.
  - apply Qnot_le_lt. intros Hle. apply Qle_bool_iff in Hle. congruence.
  - destruct (Qle_bool b a) eqn:E; [|reflexivity].
    apply Qle_bool_iff in E. exfalso. exact (Qlt_not_le _ _ H E).
Qed.

Lemma Qltb_ge (a b : Q) : Qltb a b = false <-> b <= a.
Proof.
  unfold Qltb. rewrite negb_false_iff. apply Qle_bool_iff.
Qed.

(** ** Severity classifier *)

(** C1.  With the default thresholds, a disease in the high-risk set is
    "severe" whatever the confidence; otherwise the tier is "mild" below
    0.45, "moderate" from 0.45 (included) up to 0.80 (excluded) and "severe"
    from 0.80 on, so a confidence equal to a threshold lands in the higher
    tier. *)
Theorem compute_severity_tiers (c : Q) (d : string) (H : list string) :
  let r := compute_severity Settings.defaults c d (Some H) in
  (In d H -> r = "severe") /\
  (~ In d H ->
     (c < 0.45 -> r = "mild") /\
     (0.45 <= c /\ c < 0.80 -> r = "moderate") /\
     (0.80 <= c -> r = "severe") /\
     (c == 0.45 -> r = "moderate") /\
     (c == 0.80 -> r = "severe")).
Proof.
  cbv zeta. unfold compute_severity. cbn [Settings.THRESHOLD_MILD
    Settings.THRESHOLD_SEVERE Settings.defaults]. split.
  - intros Hin. apply str_in_In in Hin. now rewrite Hin.
  - intros Hnot. apply str_in_not_In in Hnot. rewrite Hnot.
    assert (Hmid : 0.45 <= c /\ c < 0.80 ->
      (if Qltb c 0.45 then "mild"
       else if Qltb c 0.80 then "moderate" else "severe") = "moderate").
    { intros [Hlo Hhi]. apply Qltb_ge in Hlo. apply Qltb_lt in Hhi.
      now rewrite Hlo, Hhi. }
    assert (Htop : 0.80 <= c ->
      (if Qltb c 0.45 then "mild"
       else if Qltb c 0.80 then "moderate" else "severe") = "severe").
    { intros Hhi.
      assert (Hlo : 0.45 <= c) by (eapply Qle_trans; [|exact Hhi]; discriminate).
      apply Qltb_ge in Hlo. apply Qltb_ge in Hhi. now rewrite Hlo, Hhi. }
    repeat split.
    + intros Hlt. apply Qltb_lt in Hlt. now rewrite Hlt.
    + exact Hmid.
    + exact Htop.
    + intros He. apply Hmid. split.
      * rewrite He. apply Qle_refl.
      * rewrite He. reflexivity.
    + intros He. apply Htop. rewrite He. apply Qle_refl.
Qed.

(** C1 at the four sample calls of the specification. *)
Lemma compute_severity_tiers_witness :
  compute_severity Settings.defaults 0.80 "X" (Some []) = "severe" /\
  compute_severity Settings.defaults 0.79999 "X" (Some []) = "moderate" /\
  compute_severity Settings.defaults 0.44999 "X" (Some []) = "mild" /\
  compute_severity Settings.defaults 0.0 "X" (Some ["X"]) = "severe".
Proof.
  split; [|split; [|split]].
  - destruct (compute_severity_tiers 0.80 "X" []) as [_ H].
    destruct (H (fun absurd => absurd)) as (_ & _ & Hsevere & _).
    apply Hsevere. discriminate.
  - destruct (compute_severity_tiers 0.79999 "X" []) as [_ H].
    destruct (H (fun absurd => absurd)) as (_ & Hmoderate & _).
    apply Hmoderate. split; [discriminate | reflexivity].
  - destruct (compute_severity_tiers 0.44999 "X" []) as [_ H].
    destruct (H (fun absurd => absurd)) as (Hmild & _).
    apply Hmild. reflexivity.
  - destruct (compute_severity_tiers 0.0 "X" ["X"]) as [H _].
    apply H. now left.
Defined.

(** ** Upload validation *)

Lemma split_not_nil (sep : ascii) (s : string) : split sep s <> [].
Proof.
  destruct s as [|c s]; simpl; [discriminate|].
  destruct (Ascii.eqb c sep); [discriminate|].
  destruct (split sep s); discriminate.
Qed.

(** A name without the separator is a single piece. *)
Lemma split_without_sep (sep : ascii) (s : string) :
  has_chr sep s = false -> split sep s = [s].
Proof.
  induction s as [|c s IH]; simpl; [reflexivity|].
  intros H. apply orb_false_iff in H. destruct H as [Hc Hs].
  rewrite Hc, (IH Hs). reflexivity.
Qed.

(** Splitting distributes over a separator in the middle. *)
Lemma split_app_sep (sep : ascii) (a b : string) :
  split sep (a ++ String sep b) = (split sep a ++ split sep b)%list.
Proof.
  induction a as [|c a IH]; simpl.
  - now rewrite Ascii.eqb_refl.
  - rewrite IH. destruct (Ascii.eqb c sep); [reflexivity|].
    pose proof (split_not_nil sep a) as Hne.
    destruct (split sep a) as [|piece rest]; [contradiction|reflexivity].
Qed.

(** The extension is the lower-cased text after the last dot. *)
Lemma file_extension_after_last_dot (stem ext : string) :
  has_chr "." ext = false ->
  file_extension (stem ++ String "." ext) = lower ext.
Proof.
  intros H. unfold file_extension.
  rewrite split_app_sep, (split_without_sep _ _ H).
  now rewrite last_last.
Qed.

(** Without any dot the extension is the whole lower-cased name. *)
Lemma file_extension_dotless (file_name : string) :
  has_chr "." file_name = false ->
  file_extension file_name = lower file_name.
Proof.
  intros H. unfold file_extension.
  now rewrite (split_without_sep _ _ H).
Qed.

Lemma validate_within_limit (f : UploadedFile) :
  (size f <= Settings.MAX_FILE_SIZE)%Z ->
  validate_uploaded_file (Some f) =
    if str_in (file_extension (name f)) Settings.SUPPORTED_FORMATS
    then (true, "Valid file")
    else (false, unsupported_message).
Proof.
  intros Hle. unfold validate_uploaded_file.
  apply Z.ltb_ge in Hle. rewrite Hle.
  now destruct (str_in _ _).
Qed.

Lemma validate_over_limit (f : UploadedFile) :
  (Settings.MAX_FILE_SIZE < size f)%Z ->
  validate_uploaded_file (Some f) = (false, too_large_message (size f)).
Proof.
  intros Hlt. unfold validate_uploaded_file.
  apply Z.ltb_lt in Hlt. now rewrite Hlt.
Qed.

(** C6.  The checks run in the order: file present, size,
    extension.  No file: the no-file reason.  More than 10 MiB: the
    too-large reason.  Exactly 10 MiB with an allowed extension: accepted.
    Within the limit with a lower-cased extension (the text after the last
    dot) outside jpg, jpeg, png: the unsupported-format reason; and such a
    file is rejected whatever its size.  A 1-byte photo.GIF is rejected as
    unsupported. *)
Theorem validate_uploaded_file_rules :
  Settings.MAX_FILE_SIZE = (10 * 2 ^ 20)%Z /\
  validate_uploaded_file None = (false, "No file uploaded") /\
  (forall f, (Settings.MAX_FILE_SIZE < size f)%Z ->
     validate_uploaded_file (Some f) = (false, too_large_message (size f))) /\
  (forall f, size f = Settings.MAX_FILE_SIZE ->
     In (file_extension (name f)) ["jpg"; "jpeg"; "png"] ->
     validate_uploaded_file (Some f) = (true, "Valid file")) /\
  (forall f, (size f <= Settings.MAX_FILE_SIZE)%Z ->
     ~ In (file_extension (name f)) ["jpg"; "jpeg"; "png"] ->
     validate_uploaded_file (Some f) =
       (false, "Unsupported format. Please use: jpg, jpeg, png")) /\
  (forall f, ~ In (file_extension (name f)) ["jpg"; "jpeg"; "png"] ->
     fst (validate_uploaded_file (Some f)) = false) /\
  (forall stem ext, has_chr "." ext = false ->
     file_extension (stem ++ String "." ext) = lower ext) /\
  validate_uploaded_file (Some {| name := "photo.GIF"; size := 1 |}) =
    (false, "Unsupported format. Please use: jpg, jpeg, png") /\
  validate_uploaded_file
    (Some {| name := "photo.jpg"; size := Settings.MAX_FILE_SIZE + 1 |}) =
    (false, "File size (10.0MB) exceeds limit (10.0MB)") /\
  validate_uploaded_file
    (Some {| name := "photo.jpg"; size := Settings.MAX_FILE_SIZE |}) =
    (true, "Valid file").
Proof.
  split; [reflexivity|]. split; [reflexivity|].
  split; [exact validate_over_limit|].
  split.
  { intros f Hsz Hin. rewrite validate_within_limit by lia.
    apply str_in_In in Hin.
    change Settings.SUPPORTED_FORMATS with ["jpg"; "jpeg"; "png"].
    now rewrite Hin. }
  split.
  { intros f Hsz Hout. rewrite validate_within_limit by assumption.
    apply str_in_not_In in Hout.
    change Settings.SUPPORTED_FORMATS with ["jpg"; "jpeg"; "png"].
    now rewrite Hout. }
  split.
  { intros f Hout. destruct (Z.ltb_spec Settings.MAX_FILE_SIZE (size f)) as [Hlt|Hle].
    - now rewrite validate_over_limit.
    - rewrite validate_within_limit by assumption.
      apply str_in_not_In in Hout.
      change Settings.SUPPORTED_FORMATS with ["jpg"; "jpeg"; "png"].
      now rewrite Hout. }
  split; [exact file_extension_after_last_dot|].
  repeat split; vm_compute; reflexivity.
Qed.

(** C6 at concrete uploads: an 11 MiB photo.png, and a 2-byte
    notes.txt. *)
Lemma validate_uploaded_file_rules_witness :
  validate_uploaded_file
    (Some {| name := "photo.png"; size := 11 * 1024 * 1024 |}) =
    (false, too_large_message (11 * 1024 * 1024)) /\
  validate_uploaded_file (Some {| name := "notes.txt"; size := 2 |}) =
    (false, "Unsupported format. Please use: jpg, jpeg, png").
Proof.
  pose proof validate_uploaded_file_rules
    as (_ & _ & Hbig & _ & Hfmt & _).
  split.
  - apply Hbig. vm_compute. reflexivity.
  - apply Hfmt.
    + vm_compute. discriminate.
    + vm_compute. intros [H|[H|[H|[]]]]; discriminate.
Defined.

(** C10.  A name without any dot is checked as a whole: the extension
    tested is the entire lower-cased name.  Within the size limit the file
    is accepted when that name is jpg, jpeg or png, whatever the letter
    case of the original, and rejected as unsupported otherwise; a dot-less
    name outside the three is rejected at any size. *)
Theorem validate_dotless_name (f : UploadedFile) :
  has_chr "." (name f) = false ->
  file_extension (name f) = lower (name f) /\
  ((size f <= Settings.MAX_FILE_SIZE)%Z ->
   In (lower (name f)) ["jpg"; "jpeg"; "png"] ->
   validate_uploaded_file (Some f) = (true, "Valid file")) /\
  ((size f <= Settings.MAX_FILE_SIZE)%Z ->
   ~ In (lower (name f)) ["jpg"; "jpeg"; "png"] ->
   validate_uploaded_file (Some f) =
     (false, "Unsupported format. Please use: jpg, jpeg, png")) /\
  (~ In (lower (name f)) ["jpg"; "jpeg"; "png"] ->
   fst (validate_uploaded_file (Some f)) = false).
Proof.
  intros Hdot. split; [now apply file_extension_dotless|].
  assert (Hin : (size f <= Settings.MAX_FILE_SIZE)%Z ->
    validate_uploaded_file (Some f) =
      if str_in (lower (name f)) ["jpg"; "jpeg"; "png"]
      then (true, "Valid file")
      else (false, "Unsupported format. Please use: jpg, jpeg, png")).
  { intros Hsz. rewrite (validate_within_limit f Hsz).
    now rewrite (file_extension_dotless _ Hdot). }
  split; [|split].
  - intros Hsz H. apply str_in_In in H. now rewrite (Hin Hsz), H.
  - intros Hsz H. apply str_in_not_In in H. now rewrite (Hin Hsz), H.
  - intros H. apply str_in_not_In in H.
    destruct (Z.ltb_spec Settings.MAX_FILE_SIZE (size f)) as [Hlt|Hle].
    + now rewrite validate_over_limit.
    + now rewrite (Hin Hle), H.
Qed.

(** C10 at the 3-byte upload named JpG, which is accepted. *)
Lemma validate_dotless_name_witness :
  validate_uploaded_file (Some {| name := "JpG"; size := 3 |}) =
    (true, "Valid file").
Proof.
  refine (proj1 (proj2
    (validate_dotless_name {| name := "JpG"; size := 3 |} _)) _ _).
  - reflexivity.
  - vm_compute. discriminate.
  - vm_compute. left. reflexivity.
Defined.

(** ** Dictionaries *)

Section DictFacts.

Context {V : Type}.
Implicit Types (d : Dict.t V) (k : string) (v : V).

Lemma dict_keys_set d k v k0 :
  In k0 (Dict.keys (Dict.set d k v)) <-> k0 = k \/ In k0 (Dict.keys d).
Proof.
  induction d as [|[k' v'] d IH]; simpl.
  - intuition.
  - destruct (String.eqb_spec k k') as [->|Hne]; simpl.
    + intuition.
    + rewrite IH. intuition.
Qed.

(** Assigning to an absent key appends the entry. *)
Lemma dict_set_fresh d k v :
  ~ In k (Dict.keys d) -> Dict.set d k v = (d ++ [(k, v)])%list.
Proof.
  induction d as [|[k' v'] d IH]; simpl; intros Hk; [reflexivity|].
  destruct (String.eqb_spec k k') as [->|Hne].
  - exfalso. apply Hk. now left.
  - rewrite IH; [reflexivity|]. intros Hin. apply Hk. now right.
Qed.

(** In a dictionary without repeated keys every entry is found by its
    key. *)
Lemma dict_get_In d k v :
  NoDup (Dict.keys d) -> In (k, v) d -> Dict.get d k = Some v.
Proof.
  induction d as [|[k' v'] d IH]; simpl; intros Hnd Hin; [contradiction|].
  inversion Hnd as [|? ? Hnotin Hnd']; subst.
  destruct Hin as [Heq|Hin].
  - inversion Heq; subst. now rewrite String.eqb_refl.
  - destruct (String.eqb_spec k k') as [->|Hne].
    + exfalso. apply Hnotin. change k' with (fst (k', v)).
      now apply in_map.
    + now apply IH.
Qed.

Lemma dict_get_Some_key d k v :
  Dict.get d k = Some v -> In k (Dict.keys d).
Proof.
  induction d as [|[k' v'] d IH]; simpl; [discriminate|].
  destruct (String.eqb_spec k k') as [->|Hne]; intros H.
  - now left.
  - right. now apply IH.
Qed.

Lemma dict_get_key d k :
  In k (Dict.keys d) -> exists v, Dict.get d k = Some v.
Proof.
  induction d as [|[k' v'] d IH]; simpl; [contradiction|].
  destruct (String.eqb_spec k k') as [->|Hne]; intros H.
  - now exists v'.
  - destruct H as [H|H]; [congruence|]. now apply IH.
Qed.

End DictFacts.

(** ** Sums of rationals *)



Lemma normalize_scores_length (preds : list Q) :
  List.length (normalize_scores preds) = List.length preds.
Proof.
  unfold normalize_scores.
  destruct (Qle_bool _ _); apply length_map.
Qed.

(** ** Arg-max *)

(** The scan keeps the first position of the largest entry seen so far;
    [pre] is the part of the vector already scanned. *)
Lemma argmax_from_first (v pre : list Q) (best_i : nat) (best : Q) :
  (best_i < List.length pre)%nat ->
  nth best_i pre 0 = best ->
  (forall j, (j < List.length pre)%nat -> nth j pre 0 <= best) ->
  (forall j, (j < best_i)%nat -> nth j pre 0 < best) ->
  first_argmax (pre ++ v) (argmax_from best_i best (List.length pre) v).
Proof.
  revert pre best_i best.
  induction v as [|x v IH]; intros pre best_i best Hlt Hnth Hmax Hfirst.
  - simpl. rewrite app_nil_r. subst best. repeat split; assumption.
  - simpl.
    replace (pre ++ x :: v)%list with ((pre ++ [x]) ++ v)%list
      by (rewrite <- app_assoc; reflexivity).
    replace (S (List.length pre)) with (List.length (pre ++ [x]))
      by (rewrite length_app; simpl; lia).
    assert (Hmid : nth (List.length pre) (pre ++ [x]) 0 = x)
      by apply nth_middle.
    destruct (Qltb best x) eqn:E.
    + apply Qltb_lt in E.
      replace (List.length pre) with (List.length (pre ++ [x]) - 1)%nat at 1
        by (rewrite length_app; simpl; lia).
      apply IH.
      * rewrite length_app; simpl; lia.
      * rewrite length_app; simpl.
        replace (List.length pre + 1 - 1)%nat with (List.length pre) by lia.
        exact Hmid.
      * intros j Hj. rewrite length_app in Hj; simpl in Hj.
        destruct (Nat.eq_dec j (List.length pre)) as [->|Hne].
        -- rewrite Hmid. apply Qle_refl.
        -- rewrite app_nth1 by lia. apply Qlt_le_weak.
           eapply Qle_lt_trans; [apply Hmax; lia | exact E].
      * intros j Hj. rewrite length_app in Hj; simpl in Hj.
        rewrite app_nth1 by lia.
        eapply Qle_lt_trans; [apply Hmax; lia | exact E].
    + apply Qltb_ge in E. apply IH.
      * rewrite length_app; simpl; lia.
      * rewrite app_nth1 by lia. exact Hnth.
      * intros j Hj. rewrite length_app in Hj; simpl in Hj.
        destruct (Nat.eq_dec j (List.length pre)) as [->|Hne].
        -- rewrite Hmid. exact E.
        -- rewrite app_nth1 by lia. apply Hmax. lia.
      * intros j Hj. rewrite app_nth1 by lia. now apply Hfirst.
Qed.

(** On a non-empty vector [np_argmax] returns the first arg-max. *)
Lemma np_argmax_first (v : list Q) :
  v <> [] -> exists k, np_argmax v = Return k /\ first_argmax v k.
Proof.
  destruct v as [|x v]; [congruence|]. intros _.
  exists (argmax_from 0 x 1 v). split; [reflexivity|].
  apply (argmax_from_first v [x] 0%nat x).
  - simpl; lia.
  - reflexivity.
  - intros j Hj. simpl in Hj. assert (j = 0)%nat as -> by lia.
    apply Qle_refl.
  - intros j Hj. lia.
Qed.

(** ** Labels and the probability mapping *)

(** The test written twice in [predict_image] is the registry rule. *)
Lemma inline_label (class_names : list string) (i : nat) :
  (if truthy class_names && (i <? List.length class_names)%nat
   then nth i class_names ""
   else str_of_nat i) = registry_label class_names i.
Proof.
  unfold registry_label.
  destruct (Nat.ltb_spec i (List.length class_names)) as [Hlt|Hge].
  - destruct class_names as [|c cs]; [simpl in Hlt; lia|].
    cbn [truthy andb].
    now rewrite (nth_error_nth' _ "" Hlt).
  - rewrite andb_false_r.
    apply nth_error_None in Hge. now rewrite Hge.
Qed.

Lemma build_probs_map_fold {V} (class_names : list string) (probs : list V) :
  build_probs_map class_names probs =
  fold_left (assign class_names) (enumerate probs) Dict.empty.
Proof.
  unfold build_probs_map. generalize (@Dict.empty V).
  induction (enumerate probs) as [|[i p] l IH]; intros d; simpl.
  - reflexivity.
  - rewrite IH. unfold assign. simpl. now rewrite inline_label.
Qed.

Lemma enumerate_fst {A} (v : list A) (s : nat) :
  map fst (combine (seq s (List.length v)) v) = seq s (List.length v).
Proof.
  revert s. induction v as [|x v IH]; intros s; simpl; [reflexivity|].
  now rewrite IH.
Qed.

Lemma enumerate_snd {A} (v : list A) (s : nat) :
  map snd (combine (seq s (List.length v)) v) = v.
Proof.
  revert s. induction v as [|x v IH]; intros s; simpl; [reflexivity|].
  now rewrite IH.
Qed.

(** The keys written by the loop are the old keys and the labels of the
    indices visited. *)
Lemma fold_assign_keys {V} (cn : list string) (l : list (nat * V))
    (d : Dict.t V) (k : string) :
  In k (Dict.keys (fold_left (assign cn) l d)) <->
  In k (Dict.keys d) \/ In k (map (registry_label cn) (map fst l)).
Proof.
  revert d. induction l as [|ip l IH]; intros d; cbn [fold_left map].
  - simpl. intuition.
  - rewrite IH. unfold assign at 1. rewrite dict_keys_set. simpl.
    intuition congruence.
Qed.

(** With pairwise distinct labels every assignment appends. *)
Lemma fold_assign_fresh {V} (cn : list string) (l : list (nat * V))
    (d : Dict.t V) :
  NoDup (Dict.keys d ++ map (registry_label cn) (map fst l)) ->
  fold_left (assign cn) l d =
  (d ++ map (fun ip => (registry_label cn (fst ip), snd ip)) l)%list.
Proof.
  revert d. induction l as [|ip l IH]; intros d Hnd; cbn [fold_left map].
  - now rewrite app_nil_r.
  - cbn [map] in Hnd. unfold assign at 2.
    rewrite dict_set_fresh.
    + rewrite IH.
      * now rewrite <- app_assoc.
      * unfold Dict.keys in *. rewrite map_app, <- app_assoc. exact Hnd.
    + apply NoDup_remove_2 in Hnd. intros Hin. apply Hnd.
      apply in_or_app. now left.
Qed.

(** Every value stored by the loop is an old value or one of the values
    visited. *)
Lemma dict_set_entries {V} (d : Dict.t V) (k k0 : string) (v v0 : V) :
  In (k0, v0) (Dict.set d k v) -> In (k0, v0) d \/ v0 = v.
Proof.
  induction d as [|[k' v'] d IH]; simpl.
  - intros [H|[]]. inversion H. now right.
  - destruct (String.eqb_spec k k') as [->|Hne]; simpl.
    + intros [H|H]; [inversion H; now right | left; now right].
    + intros [H|H]; [left; now left|].
      destruct (IH H) as [H'|H']; [left; now right | now right].
Qed.

Lemma fold_assign_values {V} (cn : list string) (l : list (nat * V))
    (d : Dict.t V) (k : string) (p : V) :
  In (k, p) (fold_left (assign cn) l d) ->
  In (k, p) d \/ In p (map snd l).
Proof.
  revert d. induction l as [|ip l IH]; intros d; cbn [fold_left map];
    [now left|].
  intros H. destruct (IH _ H) as [H'|H']; [|right; now right].
  unfold assign in H'. apply dict_set_entries in H'.
  destruct H' as [H'|H']; [now left | right; left; congruence].
Qed.

Lemma dict_get_entry {V} (d : Dict.t V) (k : string) (v : V) :
  Dict.get d k = Some v -> In (k, v) d.
Proof.
  induction d as [|[k' v'] d IH]; simpl; [discriminate|].
  destruct (String.eqb_spec k k') as [->|Hne]; intros H.
  - left. congruence.
  - right. now apply IH.
Qed.

(** [predict_image] returns on every non-empty score vector. *)
Lemma predict_image_returns (preds : list Q) (class_names : list string) :
  preds <> [] ->
  exists k,
    np_argmax (normalize_scores preds) = Return k /\
    first_argmax (normalize_scores preds) k /\
    predict_image preds class_names =
      Return {| class_id := k;
                disease := registry_label class_names k;
                confidence := nth k (normalize_scores preds) 0;
                probabilities :=
                  fold_left (assign class_names)
                    (enumerate (normalize_scores preds)) Dict.empty |}.
Proof.
  intros Hne.
  assert (Hne' : normalize_scores preds <> []).
  { intros E. apply (f_equal (@List.length Q)) in E.
    rewrite normalize_scores_length in E.
    destruct preds; [congruence | discriminate]. }
  destruct (np_argmax_first _ Hne') as [k [Hk Hfirst]].
  exists k. split; [assumption|]. split; [assumption|].
  unfold predict_image. rewrite Hk.
  now rewrite inline_label, build_probs_map_fold.
Qed.

(** ** Prediction decoder *)



(** ** Prediction decoder in floating-point arithmetic *)

(** With pairwise distinct labels the mapping lists the labels and the
    normalized scores side by side. *)
Lemma distinct_labels_mapping {V} (cn : list string) (probs : list V) :
  NoDup (map (registry_label cn) (seq 0 (List.length probs))) ->
  fold_left (assign cn) (enumerate probs) Dict.empty =
  combine (map (registry_label cn) (seq 0 (List.length probs))) probs.
Proof.
  intros Hnd. rewrite fold_assign_fresh.
  - clear Hnd. simpl. unfold enumerate. generalize 0%nat.
    induction probs as [|p probs IH]; intros s; simpl; [reflexivity|].
    now rewrite IH.
  - unfold enumerate. now rewrite enumerate_fst.
Qed.

Lemma combine_keys {A B} (l : list A) (v : list B) :
  List.length l = List.length v -> map fst (combine l v) = l.
Proof.
  revert v. induction l as [|a l IH]; intros [|b v] Hlen;
    simpl in *; try congruence.
  f_equal. apply IH. lia.
Qed.

Lemma combine_values {A B} (l : list A) (v : list B) :
  List.length l = List.length v -> map snd (combine l v) = v.
Proof.
  revert v. induction l as [|a l IH]; intros [|b v] Hlen;
    simpl in *; try congruence.
  f_equal. apply IH. lia.
Qed.


(** A float that is not NaN compares equal to itself. *)
Lemma SFleb_refl (x : spec_float) : IEEE.is_nan x = false -> SFleb x x = true.
Proof.
  unfold SFleb. destruct x as [s|s| |s m e]; simpl; try discriminate;
    intros _; try reflexivity.
  - now destruct s.
  - rewrite Z.compare_refl, Pos.compare_cont_refl. now destruct s.
Qed.

(** On a constant vector the scan never moves. *)
Lemma ieee_argmax_from_const (c : spec_float) (n i best_i : nat) :
  IEEE.is_nan c = false ->
  IEEE.argmax_from best_i c i (repeat c n) = best_i.
Proof.
  intros Hc. revert i. induction n as [|n IH]; intros i; simpl;
    [reflexivity|].
  rewrite (SFleb_refl c Hc). apply IH.
Qed.

Lemma ieee_np_argmax_const (c : spec_float) (n : nat) :
  IEEE.np_argmax (repeat c (S n)) = Return 0%nat.
Proof.
  simpl. destruct (IEEE.is_nan c) eqn:E; [reflexivity|].
  now rewrite ieee_argmax_from_const.
Qed.

(** The scan returns a position of the vector. *)
Lemma ieee_argmax_from_bound (v : list spec_float) (best_i i : nat)
    (best : spec_float) :
  (best_i < i)%nat ->
  (IEEE.argmax_from best_i best i v < i + List.length v)%nat.
Proof.
  revert best_i i best. induction v as [|x v IH]; intros best_i i best Hlt;
    simpl; [lia|].
  destruct (SFleb x best).
  - specialize (IH best_i (S i) best). lia.
  - destruct (IEEE.is_nan x); [lia|].
    specialize (IH i (S i) x). lia.
Qed.

Lemma ieee_np_argmax_bound (v : list spec_float) :
  v <> [] ->
  exists k, IEEE.np_argmax v = Return k /\ (k < List.length v)%nat.
Proof.
  destruct v as [|x v]; [congruence|]. intros _. eexists.
  split; [reflexivity|]. simpl.
  destruct (IEEE.is_nan x); [lia|].
  pose proof (ieee_argmax_from_bound v 0 1 x). lia.
Qed.

Lemma ieee_normalize_scores_length (prec emax : Z)
    (np_sum : list spec_float -> spec_float) (preds : list spec_float) :
  List.length (IEEE.normalize_scores prec emax np_sum preds) =
  List.length preds.
Proof.
  unfold IEEE.normalize_scores. destruct (SFleb _ _); apply length_map.
Qed.

(** [IEEE.predict_image] returns on every non-empty score vector, NaN and
    infinities included. *)
Lemma ieee_predict_image_returns (prec emax : Z)
    (np_sum : list spec_float -> spec_float) (preds : list spec_float)
    (class_names : list string) :
  preds <> [] ->
  exists k,
    IEEE.np_argmax (IEEE.normalize_scores prec emax np_sum preds) = Return k /\
    (k < List.length preds)%nat /\
    IEEE.predict_image prec emax np_sum preds class_names =
      Return {| IEEE.class_id := k;
                IEEE.disease := registry_label class_names k;
                IEEE.confidence :=
                  nth k (IEEE.normalize_scores prec emax np_sum preds)
                      S754_nan;
                IEEE.probabilities :=
                  fold_left (assign class_names)
                    (enumerate (IEEE.normalize_scores prec emax np_sum preds))
                    Dict.empty |}.
Proof.
  intros Hne.
  assert (Hne' : IEEE.normalize_scores prec emax np_sum preds <> []).
  { intros E. apply (f_equal (@List.length spec_float)) in E.
    rewrite ieee_normalize_scores_length in E.
    destruct preds; [congruence | discriminate]. }
  destruct (ieee_np_argmax_bound _ Hne') as [k [Hk Hlt]].
  rewrite ieee_normalize_scores_length in Hlt.
  exists k. split; [assumption|]. split; [assumption|].
  unfold IEEE.predict_image. rewrite Hk.
  now rewrite inline_label, build_probs_map_fold.
Qed.

(** C2, as stated, fails in the arithmetic of the code, in two ways.

    The test is made on the sum that [np.sum] computes, not on the sum of
    the elements.  The float32 scores -16777216, -1, 16777216, 1 sum to 0,
    but adding them from left to right gives 1.0, because -16777217 is not
    a float32 number and rounds to -16777216.  The decoder then divides by
    1.0: the entries are the scores themselves, not 1/4 each, the top class
    is 2 and the confidence is 16777216.

    When the uniform vector is substituted, its entries are the quotient of
    the format, which is 1/N only when 1/N is a number of the format: for
    three float32 zeros every entry is 11184811/33554432, not 1/3. *)
Lemma rounded_sum_counterexample :
  (let preds := map IEEE.float32 [-16777216; -1; 16777216; 1]%Z in
   map IEEE.value preds =
     [Some (-16777216); Some (-1); Some 16777216; Some 1] /\
   IEEE.exact_sum preds = Some 0 /\
   IEEE.sum_left_to_right 24 128 preds = IEEE.float32 1 /\
   SFleb (IEEE.sum_left_to_right 24 128 preds) (S754_zero false) = false /\
   exists r,
     IEEE.predict_image 24 128 (IEEE.sum_left_to_right 24 128) preds [] =
       Return r /\
     IEEE.class_id r = 2%nat /\
     IEEE.confidence r = IEEE.float32 16777216 /\
     Dict.values (IEEE.probabilities r) = preds /\
     ~ In (SFdiv 24 128 (IEEE.float32 1) (IEEE.float32 4))
          (Dict.values (IEEE.probabilities r)) /\
     IEEE.value (SFdiv 24 128 (IEEE.float32 1) (IEEE.float32 4)) =
       Some (1 / 4)) /\
  (let preds := map IEEE.float32 [0; 0; 0]%Z in
   IEEE.exact_sum preds = Some 0 /\
   exists r,
     IEEE.predict_image 24 128 (IEEE.sum_left_to_right 24 128) preds [] =
       Return r /\
     map IEEE.value (Dict.values (IEEE.probabilities r)) =
       [Some (11184811 # 33554432); Some (11184811 # 33554432);
        Some (11184811 # 33554432)] /\
     ~ (11184811 # 33554432) == 1 / 3).
Proof.
  cbv zeta. split.
  - split; [vm_compute; reflexivity|]. split; [vm_compute; reflexivity|].
    split; [vm_compute; reflexivity|]. split; [vm_compute; reflexivity|].
    eexists. split; [vm_compute; reflexivity|].
    cbn [IEEE.class_id IEEE.confidence IEEE.probabilities].
    split; [reflexivity|]. split; [vm_compute; reflexivity|].
    split; [vm_compute; reflexivity|]. split; [|vm_compute; reflexivity].
    vm_compute. intros [H|[H|[H|[H|[]]]]]; discriminate.
  - split; [vm_compute; reflexivity|].
    eexists. split; [vm_compute; reflexivity|].
    cbn [IEEE.probabilities]. split; [vm_compute; reflexivity|].
    vm_compute. discriminate.
Qed.

(** C2 (amended).  The decoder tests the sum as [np.sum] computes it in the
    format of the array.  For every score vector of length N >= 1 for which
    that computed sum is <= 0 (a zero of either sign, a negative number or
    minus infinity), the normalization step yields N entries all equal to
    the quotient 1/N of the format (it does not divide by the sum), and
    the returned result carries that uniform vector: top index 0 with its
    label, confidence equal to the quotient, a non-empty mapping in which
    every stored probability is the quotient.  This holds for every
    format and every order in which the sum is taken. *)
Theorem uniform_on_nonpositive_computed_sum
    (prec emax : Z) (np_sum : list spec_float -> spec_float)
    (preds : list spec_float) (class_names : list string) :
  preds <> [] ->
  SFleb (np_sum preds) (S754_zero false) = true ->
  let N := List.length preds in
  let u := SFdiv prec emax (IEEE.of_Z prec emax 1)
                 (IEEE.of_Z prec emax (Z.of_nat N)) in
  IEEE.normalize_scores prec emax np_sum preds = repeat u N /\
  exists r,
    IEEE.predict_image prec emax np_sum preds class_names = Return r /\
    IEEE.class_id r = 0%nat /\
    IEEE.disease r = registry_label class_names 0 /\
    IEEE.confidence r = u /\
    IEEE.probabilities r <> [] /\
    (forall k p, Dict.get (IEEE.probabilities r) k = Some p -> p = u).
Proof.
  intros Hne Hle N u.
  assert (Hnorm : IEEE.normalize_scores prec emax np_sum preds = repeat u N).
  { unfold IEEE.normalize_scores. rewrite Hle. apply map_const. }
  split; [exact Hnorm|].
  destruct (ieee_predict_image_returns prec emax np_sum preds class_names Hne)
    as [k [Hk [_ Hr]]].
  rewrite Hnorm in Hk, Hr.
  assert (HN : exists n, N = S n).
  { subst N. destruct preds; [congruence | now eexists]. }
  destruct HN as [n HN]. rewrite HN in Hk, Hr.
  rewrite ieee_np_argmax_const in Hk. injection Hk as <-.
  eexists. split; [exact Hr|].
  cbn [IEEE.class_id IEEE.disease IEEE.confidence IEEE.probabilities].
  split; [reflexivity|]. split; [reflexivity|]. split; [reflexivity|]. split.
  - intros E.
    assert (Hin : In (registry_label class_names 0)
              (Dict.keys (fold_left (assign class_names)
                            (enumerate (repeat u (S n))) Dict.empty))).
    { apply fold_assign_keys. right. now left. }
    rewrite E in Hin. exact Hin.
  - intros key p Hget. apply dict_get_entry in Hget.
    apply fold_assign_values in Hget. destruct Hget as [[]|Hin].
    unfold enumerate in Hin. rewrite enumerate_snd in Hin.
    now apply repeat_spec in Hin.
Qed.

(** The amended C2 on the float32 scores 1, -1, 0, 0 added from left to
    right (computed sum 0.0): four entries equal to 0.25, which is 1/4
    exactly. *)
Lemma uniform_on_nonpositive_computed_sum_witness :
  IEEE.normalize_scores 24 128 (IEEE.sum_left_to_right 24 128)
    (map IEEE.float32 [1; -1; 0; 0]%Z) =
  repeat (SFdiv 24 128 (IEEE.float32 1) (IEEE.float32 4)) 4 /\
  IEEE.value (SFdiv 24 128 (IEEE.float32 1) (IEEE.float32 4)) = Some (1 / 4).
Proof.
  split; [|vm_compute; reflexivity].
  refine (proj1 (uniform_on_nonpositive_computed_sum 24 128
            (IEEE.sum_left_to_right 24 128)
            (map IEEE.float32 [1; -1; 0; 0]%Z) [] _ _)).
  - discriminate.
  - vm_compute. reflexivity.
Defined.

(** C3, as stated, fails in three ways, each on float32 scores added from
    left to right.

    Two indices with the same label: the later entry overwrites the
    earlier one.  For the scores 3, 1 (sum 4) and the registry
    [acne; acne] the confidence is 3/4, while the mapping holds the single
    entry acne -> 1/4.

    A sum that overflows: for the two scores 3e38 (labels "0" and "1") the
    computed sum is plus infinity, every quotient is 0.0, and the values
    of the mapping sum to 0.

    A sum that is rounded: the scores 100000000, 3, -100000000, 1 sum to 4,
    the computed sum is 1.0 (100000003 rounds to 100000000), the quotients
    are the scores themselves, and the values of the mapping sum to 4. *)
Lemma probabilities_sum_counterexample :
  (let preds := map IEEE.float32 [3; 1]%Z in
   let class_names := ["acne"; "acne"] in
   IEEE.value (IEEE.sum_left_to_right 24 128 preds) = Some 4 /\
   exists r,
     IEEE.predict_image 24 128 (IEEE.sum_left_to_right 24 128)
       preds class_names = Return r /\
     IEEE.value (IEEE.confidence r) = Some (3 / 4) /\
     option_map IEEE.value (Dict.get (IEEE.probabilities r) (IEEE.disease r))
       = Some (Some (1 / 4)) /\
     Dict.get (IEEE.probabilities r) (IEEE.disease r) <>
       Some (IEEE.confidence r) /\
     IEEE.exact_sum (Dict.values (IEEE.probabilities r)) = Some (1 / 4) /\
     ~ Qabs (1 / 4 - 1) <= 1 / 1000000) /\
  (let preds := map IEEE.float32 [3 * 10 ^ 38; 3 * 10 ^ 38]%Z in
   NoDup (map (registry_label []) (seq 0 (List.length preds))) /\
   map IEEE.value preds =
     [Some 300000000549775575777803994281145270272;
      Some 300000000549775575777803994281145270272] /\
   IEEE.sum_left_to_right 24 128 preds = S754_infinity false /\
   exists r,
     IEEE.predict_image 24 128 (IEEE.sum_left_to_right 24 128) preds [] =
       Return r /\
     IEEE.probabilities r =
       [("0", S754_zero false); ("1", S754_zero false)] /\
     IEEE.exact_sum (Dict.values (IEEE.probabilities r)) = Some 0 /\
     ~ Qabs (0 - 1) <= 1 / 1000000) /\
  (let preds := map IEEE.float32 [100000000; 3; -100000000; 1]%Z in
   NoDup (map (registry_label []) (seq 0 (List.length preds))) /\
   IEEE.exact_sum preds = Some 4 /\
   IEEE.sum_left_to_right 24 128 preds = IEEE.float32 1 /\
   exists r,
     IEEE.predict_image 24 128 (IEEE.sum_left_to_right 24 128) preds [] =
       Return r /\
     Dict.values (IEEE.probabilities r) = preds /\
     IEEE.exact_sum (Dict.values (IEEE.probabilities r)) = Some 4 /\
     ~ Qabs (4 - 1) <= 1 / 1000000).
Proof.
  cbv zeta. split; [|split].
  - split; [vm_compute; reflexivity|].
    eexists. split; [vm_compute; reflexivity|].
    cbn [IEEE.confidence IEEE.probabilities IEEE.disease].
    split; [vm_compute; reflexivity|]. split; [vm_compute; reflexivity|].
    split; [vm_compute; discriminate|]. split; [vm_compute; reflexivity|].
    vm_compute. intros H. apply H. reflexivity.
  - split.
    { vm_compute. repeat constructor; simpl; intuition discriminate. }
    split; [vm_compute; reflexivity|]. split; [vm_compute; reflexivity|].
    eexists. split; [vm_compute; reflexivity|].
    cbn [IEEE.probabilities].
    split; [reflexivity|]. split; [vm_compute; reflexivity|].
    vm_compute. intros H. apply H. reflexivity.
  - split.
    { vm_compute. repeat constructor; simpl; intuition discriminate. }
    split; [vm_compute; reflexivity|]. split; [vm_compute; reflexivity|].
    eexists. split; [vm_compute; reflexivity|].
    cbn [IEEE.probabilities].
    split; [vm_compute; reflexivity|]. split; [vm_compute; reflexivity|].
    vm_compute. intros H. apply H. reflexivity.
Qed.

(** C3 (amended).  For every non-empty score vector, whatever its sum, and
    every registry under which the indices of the vector get pairwise
    distinct labels, [predict_image] returns a result whose mapping has one
    entry per index, in index order: the keys are the labels and the values
    are the normalized scores, that is, when the computed sum is not <= 0,
    the quotients of the scores by the computed sum in the format of the
    array.  The top index is an index of the vector, and the confidence is
    the value stored in the mapping at the returned disease.  Nothing is
    said of the sum of the values: it is 1 only as far as the rounding of
    the sum and of the quotients allows. *)
Theorem probabilities_mapping_and_confidence
    (prec emax : Z) (np_sum : list spec_float -> spec_float)
    (preds : list spec_float) (class_names : list string) :
  preds <> [] ->
  NoDup (map (registry_label class_names) (seq 0 (List.length preds))) ->
  exists r,
    IEEE.predict_image prec emax np_sum preds class_names = Return r /\
    Dict.keys (IEEE.probabilities r) =
      map (registry_label class_names) (seq 0 (List.length preds)) /\
    Dict.values (IEEE.probabilities r) =
      IEEE.normalize_scores prec emax np_sum preds /\
    (SFleb (np_sum preds) (S754_zero false) = false ->
     Dict.values (IEEE.probabilities r) =
       map (fun p => SFdiv prec emax p (np_sum preds)) preds) /\
    (IEEE.class_id r < List.length preds)%nat /\
    IEEE.disease r = registry_label class_names (IEEE.class_id r) /\
    Dict.get (IEEE.probabilities r) (IEEE.disease r) =
      Some (IEEE.confidence r).
Proof.
  intros Hne Hnd.
  destruct (ieee_predict_image_returns prec emax np_sum preds class_names Hne)
    as [k [_ [Hk Hr]]].
  set (probs := IEEE.normalize_scores prec emax np_sum preds) in *.
  assert (Hlen : List.length probs = List.length preds)
    by apply ieee_normalize_scores_length.
  rewrite <- Hlen in Hnd, Hk |- *.
  set (labels := map (registry_label class_names)
                     (seq 0 (List.length probs))) in *.
  assert (Hlab : List.length labels = List.length probs).
  { subst labels. now rewrite length_map, length_seq. }
  rewrite (distinct_labels_mapping class_names probs Hnd) in Hr.
  fold labels in Hr.
  assert (Hkeys : Dict.keys (combine labels probs) = labels)
    by now apply combine_keys.
  assert (Hvals : Dict.values (combine labels probs) = probs)
    by now apply combine_values.
  eexists. split; [exact Hr|].
  cbn [IEEE.probabilities IEEE.disease IEEE.confidence IEEE.class_id].
  rewrite Hkeys, Hvals.
  split; [reflexivity|]. split; [reflexivity|]. split.
  { intros Hs. subst probs. unfold IEEE.normalize_scores. now rewrite Hs. }
  split; [exact Hk|]. split; [reflexivity|].
  apply dict_get_In; [now rewrite Hkeys|].
  assert (E : nth k (combine labels probs) ("", S754_nan) =
              (registry_label class_names k, nth k probs S754_nan)).
  { rewrite combine_nth by exact Hlab. f_equal. subst labels.
    rewrite (nth_indep _ "" (registry_label class_names 0%nat))
      by (rewrite length_map, length_seq; exact Hk).
    rewrite map_nth. now rewrite seq_nth by exact Hk. }
  rewrite <- E. apply nth_In. rewrite length_combine. lia.
Qed.

(** The amended C3 on the registry a, b, c and the float32 scores 1, 2, 1
    added from left to right: the disease is b with confidence 1/2, as
    stored in the mapping. *)
Lemma probabilities_mapping_and_confidence_witness :
  exists r,
    IEEE.predict_image 24 128 (IEEE.sum_left_to_right 24 128)
      (map IEEE.float32 [1; 2; 1]%Z) ["a"; "b"; "c"] = Return r /\
    IEEE.disease r = "b" /\
    Dict.get (IEEE.probabilities r) "b" = Some (IEEE.confidence r) /\
    IEEE.value (IEEE.confidence r) = Some (1 / 2).
Proof.
  destruct (probabilities_mapping_and_confidence 24 128
              (IEEE.sum_left_to_right 24 128)
              (map IEEE.float32 [1; 2; 1]%Z) ["a"; "b"; "c"])
    as [r [Hr [_ [_ [_ [_ [_ Hget]]]]]]].
  - discriminate.
  - vm_compute. repeat constructor; simpl; intuition discriminate.
  - exists r. split; [exact Hr|].
    vm_compute in Hr. injection Hr as Er. subst r.
    split; [reflexivity|]. split; [exact Hget | reflexivity].
Defined.

(** ** Class registry *)

Lemma to_uint_not_nil (n : nat) : Nat.to_uint n <> Decimal.Nil.
Proof.
  rewrite <- (DecimalNat.Unsigned.of_to n) at 1.
  rewrite DecimalNat.Unsigned.to_of.
  apply DecimalFacts.unorm_nonnil.
Qed.

(** Distinct numbers have distinct decimal forms. *)
Lemma str_of_nat_inj (n m : nat) : str_of_nat n = str_of_nat m -> n = m.
Proof.
  unfold str_of_nat. intros E.
  apply (f_equal NilZero.uint_of_string) in E.
  rewrite !NilZero.usu in E by apply to_uint_not_nil.
  injection E as E. now apply DecimalNat.Unsigned.to_uint_inj.
Qed.

(** What the comprehension returns when no lookup fails. *)
Lemma by_index_nth (d : Dict.t json) (indices : list nat) (l : list json) :
  by_index d indices = Some l ->
  List.length l = List.length indices /\
  forall n, (n < List.length indices)%nat ->
    Dict.get d (str_of_nat (nth n indices 0%nat)) = Some (nth n l JNull).
Proof.
  revert l. induction indices as [|i rest IH]; intros l; simpl.
  - intros E. injection E as <-. split; [reflexivity|]. intros n Hn. lia.
  - destruct (Dict.get d (str_of_nat i)) as [v|] eqn:Ei; [|discriminate].
    destruct (by_index d rest) as [vs|]; [|discriminate].
    intros E. injection E as <-.
    destruct (IH vs eq_refl) as [Hlen Hget]. split; [simpl; lia|].
    intros [|n] Hn; simpl; [exact Ei | apply Hget; lia].
Qed.

(** The comprehension succeeds when every index is a key. *)
Lemma by_index_total (d : Dict.t json) (indices : list nat) :
  (forall i, In i indices -> In (str_of_nat i) (Dict.keys d)) ->
  exists l, by_index d indices = Some l.
Proof.
  induction indices as [|i rest IH]; intros Hall; simpl.
  - now exists [].
  - destruct (dict_get_key d (str_of_nat i)) as [v Hv];
      [apply Hall; now left|].
    rewrite Hv. destruct IH as [vs Hvs];
      [intros j Hj; apply Hall; now right|].
    rewrite Hvs. now exists (v :: vs).
Qed.

(** An object with N entries whose keys include the decimal forms of
    [0 .. N-1] has no other key. *)
Lemma present_indices_clean (d : Dict.t json) :
  (forall i, (i < Dict.len d)%nat -> In (str_of_nat i) (Dict.keys d)) ->
  clean_range d.
Proof.
  intros Hall k. split.
  - intros Hk.
    assert (Hincl : incl (Dict.keys d)
                      (map str_of_nat (seq 0 (Dict.len d)))).
    { apply NoDup_length_incl.
      - apply Finite.Injective_map_NoDup; [|apply seq_NoDup].
        intros n m. apply str_of_nat_inj.
      - unfold Dict.keys, Dict.len. rewrite !length_map, length_seq. lia.
      - intros x Hx. apply in_map_iff in Hx. destruct Hx as [i [<- Hi]].
        apply Hall. apply in_seq in Hi. lia. }
    apply Hincl in Hk. apply in_map_iff in Hk.
    destruct Hk as [i [<- Hi]]. exists i. apply in_seq in Hi.
    split; [lia | reflexivity].
  - intros [i [Hi ->]]. now apply Hall.
Qed.

Lemma load_without_classes_list (d : Dict.t json) :
  no_classes_list d ->
  load_class_names (Content (JDict d)) =
    match by_index d (seq 0 (Dict.len d)) with
    | Some l => Return l
    | None => Return (Dict.values d)
    end.
Proof.
  intros Hno. simpl.
  destruct (Dict.get d "classes") as [[]|] eqn:E; try reflexivity.
  exfalso. exact (Hno _ E).
Qed.

(** C5.  The loader returns: a top-level list as it is; the list under
    the "classes" key of an object that has one; for any other object, the
    values in the order of the keys 0, 1, ..., N-1 when the keys are exactly
    their decimal forms, and otherwise the values in insertion order; and
    the empty list, not an error, when the file is missing. *)
Theorem load_class_names_shapes :
  (forall l, load_class_names (Content (JList l)) = Return l) /\
  (forall d l, Dict.get d "classes" = Some (JList l) ->
     load_class_names (Content (JDict d)) = Return l) /\
  (forall d, no_classes_list d -> clean_range d ->
     exists l,
       load_class_names (Content (JDict d)) = Return l /\
       List.length l = Dict.len d /\
       forall i, (i < Dict.len d)%nat ->
         Dict.get d (str_of_nat i) = Some (nth i l JNull)) /\
  (forall d, no_classes_list d -> ~ clean_range d ->
     load_class_names (Content (JDict d)) = Return (Dict.values d)) /\
  load_class_names Missing = Return [].
Proof.
  split; [reflexivity|]. split; [|split; [|split; [|reflexivity]]].
  - intros d l E. simpl. now rewrite E.
  - intros d Hno Hclean. rewrite (load_without_classes_list d Hno).
    destruct (by_index_total d (seq 0 (Dict.len d))) as [l Hl].
    { intros i Hi. apply Hclean. exists i. apply in_seq in Hi.
      split; [lia | reflexivity]. }
    rewrite Hl. exists l. split; [reflexivity|].
    destruct (by_index_nth _ _ _ Hl) as [Hlen Hget].
    rewrite length_seq in Hlen, Hget. split; [exact Hlen|].
    intros i Hi. specialize (Hget i Hi).
    now rewrite seq_nth in Hget by assumption.
  - intros d Hno Hdirty. rewrite (load_without_classes_list d Hno).
    destruct (by_index d (seq 0 (Dict.len d))) as [l|] eqn:Hl;
      [|reflexivity].
    exfalso. apply Hdirty. apply present_indices_clean.
    intros i Hi. destruct (by_index_nth _ _ _ Hl) as [_ Hget].
    rewrite length_seq in Hget. specialize (Hget i Hi).
    rewrite seq_nth in Hget by assumption.
    exact (dict_get_Some_key _ _ _ Hget).
Qed.

(** C5 on the object with keys "1", "0" (reordered to a, b) and on the
    object with keys "1", "x" (kept in insertion order). *)
Lemma load_class_names_shapes_witness :
  (exists l,
     load_class_names
       (Content (JDict [("1", JStr "b"); ("0", JStr "a")])) = Return l /\
     nth 0 l JNull = JStr "a" /\ nth 1 l JNull = JStr "b") /\
  load_class_names (Content (JDict [("1", JStr "b"); ("x", JStr "a")])) =
    Return [JStr "b"; JStr "a"].
Proof.
  pose proof load_class_names_shapes as (_ & _ & Hclean & Hdirty & _).
  split.
  - destruct (Hclean [("1", JStr "b"); ("0", JStr "a")]) as [l [Hl [_ Hget]]].
    + intros l. vm_compute. discriminate.
    + intros k. split.
      * intros [<-|[<-|[]]];
          [exists 1%nat | exists 0%nat]; split; (reflexivity || (simpl; lia)).
      * intros [i [Hi ->]]. simpl in Hi.
        destruct i as [|[|i]]; [right; left | left | lia]; reflexivity.
    + exists l. split; [exact Hl|].
      pose proof (Hget 0%nat ltac:(simpl; lia)) as H0.
      pose proof (Hget 1%nat ltac:(simpl; lia)) as H1.
      change (Some (JStr "a") = Some (nth 0 l JNull)) in H0.
      change (Some (JStr "b") = Some (nth 1 l JNull)) in H1.
      split; congruence.
  - apply (Hdirty [("1", JStr "b"); ("x", JStr "a")]).
    + intros l. vm_compute. discriminate.
    + intros Hc. destruct (proj1 (Hc "x")) as [i [Hi E]].
      * right. left. reflexivity.
      * simpl in Hi. destruct i as [|[|i]]; [discriminate..|lia].
Defined.

(** ** Advice resolver *)

(** The bullets collected by the loop are the numbered lines, in order. *)
Lemma fold_parse_line_bullets (lines acc : list string) (c : string) :
  fst (fold_left parse_line lines (acc, c)) =
  (acc ++ map bullet_of
            (filter (startswith_any ["1."; "2."; "3."]) lines))%list.
Proof.
  revert acc c. induction lines as [|line lines IH]; intros acc c.
  - simpl. now rewrite app_nil_r.
  - cbn [fold_left filter]. unfold parse_line at 2.
    destruct (startswith_any ["1."; "2."; "3."] line).
    + rewrite IH. cbn [map]. now rewrite <- app_assoc.
    + destruct (contains "doctor" (lower line)); apply IH.
Qed.

Lemma parse_response_bullets (text : string) :
  fst (parse_response text) = map bullet_of (numbered_lines text).
Proof.
  unfold parse_response, numbered_lines.
  now rewrite fold_parse_line_bullets.
Qed.

(** The two shapes of a result. *)
Lemma resolver_cases (cfg : Settings.t) (service : outcome string) :
  fst (get_preventive_measures_from_gemini cfg service) =
    get_fallback_measures \/
  exists text,
    service = Return text /\
    fst (parse_response text) <> [] /\
    fst (get_preventive_measures_from_gemini cfg service) =
      {| via := "gemini";
         bullets := fst (parse_response text);
         consult := snd (parse_response text);
         advice_text :=
           joined_text (fst (parse_response text))
                       (snd (parse_response text)) |}.
Proof.
  unfold get_preventive_measures_from_gemini.
  destruct (key_set _); [|now left].
  destruct service as [text|e]; [|now left].
  destruct (parse_response text) as [bs c] eqn:E.
  destruct bs as [|b bs]; [now left|].
  right. exists text. rewrite E. cbn [truthy fst snd].
  split; [reflexivity|]. split; [discriminate | reflexivity].
Qed.

(** C7.  The resolver returns a result for every response of the service,
    an exception included: no error reaches the caller.  When no key is
    configured, or the call raises (a time-out is an exception), or the
    response has no bullet, the result is the fixed fallback: via
    "fallback", exactly 3 bullets, and a non-empty consult line. *)
Theorem fallback_on_failure (cfg : Settings.t) (service : outcome string) :
  let r := fst (get_preventive_measures_from_gemini cfg service) in
  (exists warnings,
     get_preventive_measures_from_gemini cfg service = (r, warnings)) /\
  (key_set (Settings.GEMINI_API_KEY cfg) = false \/
   (exists e, service = Raise e) \/
   (exists text, service = Return text /\ fst (parse_response text) = []) ->
   r = get_fallback_measures /\
   via r = "fallback" /\
   List.length (bullets r) = 3%nat /\
   consult r <> "").
Proof.
  intros r. split.
  - exists (snd (get_preventive_measures_from_gemini cfg service)).
    subst r. now destruct (get_preventive_measures_from_gemini cfg service).
  - intros Hfail.
    assert (Hr : r = get_fallback_measures).
    { subst r. unfold get_preventive_measures_from_gemini.
      destruct (key_set _); [|reflexivity].
      destruct Hfail as [Hk|[[e ->]|[text [-> Hnone]]]].
      - discriminate.
      - reflexivity.
      - destruct (parse_response text) as [bs c]. simpl in Hnone.
        now subst bs. }
    rewrite Hr. split; [reflexivity|]. split; [reflexivity|].
    split; [reflexivity | discriminate].
Qed.

(** C7 with a key configured and a service that times out. *)
Lemma fallback_on_failure_witness :
  fst (get_preventive_measures_from_gemini
         {| Settings.THRESHOLD_MILD := 0.45;
            Settings.THRESHOLD_SEVERE := 0.80;
            Settings.HIGH_RISK_DISEASES := [];
            Settings.GEMINI_API_KEY := Some "key" |}
         (Raise "timed out")) = get_fallback_measures.
Proof.
  refine (proj1 (proj2 (fallback_on_failure _ (Raise "timed out")) _)).
  right. left. now exists "timed out".
Defined.

(** C8, as stated, fails on the fallback: its [advice_text] is a fixed
    short summary, not the three bullets joined by spaces and followed by
    the consult line (with or without a space in between). *)
Lemma fallback_advice_text_counterexample :
  let r := fst (get_preventive_measures_from_gemini
                  Settings.defaults (Raise "timed out")) in
  via r = "fallback" /\
  advice_text r =
    "Keep the area clean and dry. Avoid scratching. Use gentle moisturizers." /\
  advice_text r <> String.concat " " (bullets r) ++ " " ++ consult r /\
  advice_text r <> String.concat " " (bullets r) ++ consult r.
Proof.
  cbv zeta. split; [reflexivity|]. split; [reflexivity|].
  split; vm_compute; discriminate.
Qed.

(** C8 (amended).  Every result is generated (via "gemini") or the
    fallback.  In a generated result [advice_text] is the bullets joined by
    spaces, then a space, then the consult line; in the fallback it is the
    fixed summary text. *)
Theorem advice_text_of_result (cfg : Settings.t) (service : outcome string) :
  let r := fst (get_preventive_measures_from_gemini cfg service) in
  (via r = "gemini" \/ via r = "fallback") /\
  (via r = "gemini" ->
     advice_text r = String.concat " " (bullets r) ++ " " ++ consult r) /\
  (via r = "fallback" ->
     advice_text r =
       "Keep the area clean and dry. Avoid scratching. Use gentle moisturizers.").
Proof.
  cbv zeta.
  destruct (resolver_cases cfg service) as [->|[text [_ [_ ->]]]].
  - split; [now right|]. split; [discriminate | reflexivity].
  - split; [now left|]. split; [reflexivity | discriminate].
Qed.

(** The amended C8 on a response with one bullet and a consult line. *)
Lemma advice_text_of_result_witness :
  advice_text
    (fst (get_preventive_measures_from_gemini
            {| Settings.THRESHOLD_MILD := 0.45;
               Settings.THRESHOLD_SEVERE := 0.80;
               Settings.HIGH_RISK_DISEASES := [];
               Settings.GEMINI_API_KEY := Some "key" |}
            (Return (String.concat (String LF "")
                       [ "1. Rest."; "See a doctor if it spreads." ])))) =
  "Rest. See a doctor if it spreads.".
Proof.
  refine (eq_trans (proj1 (proj2 (advice_text_of_result _ _)) _) _);
    reflexivity.
Defined.

(** C9, as stated, fails: nothing caps the number of bullets.  A response
    whose advice on seeing a doctor is itself a numbered list yields five
    bullets. *)
Lemma five_bullets_counterexample :
  let cfg := {| Settings.THRESHOLD_MILD := 0.45;
                Settings.THRESHOLD_SEVERE := 0.80;
                Settings.HIGH_RISK_DISEASES := [];
                Settings.GEMINI_API_KEY := Some "key" |} in
  let text := String.concat (String LF "")
                [ "1. Keep the area clean.";
                  "2. Avoid scratching.";
                  "3. Use sunscreen.";
                  "When to see a doctor:";
                  "1. If the lesion grows.";
                  "2. If it bleeds." ] in
  let r := fst (get_preventive_measures_from_gemini cfg (Return text)) in
  via r = "gemini" /\
  bullets r = [ "Keep the area clean."; "Avoid scratching.";
                "Use sunscreen."; "If the lesion grows."; "If it bleeds." ] /\
  ~ (List.length (bullets r) <= 3)%nat.
Proof.
  cbv zeta. split; [reflexivity|]. split; [reflexivity|].
  vm_compute. intros H. repeat apply le_S_n in H. inversion H.
Qed.

(** C9 (amended).  The via field is "gemini" (generated) or "fallback".
    The fallback has exactly 3 bullets.  A generated result has one bullet
    per numbered line of the response, in order, so it has at most 3
    bullets exactly when the response has at most three numbered lines. *)
Theorem bullets_and_via (cfg : Settings.t) (service : outcome string) :
  let r := fst (get_preventive_measures_from_gemini cfg service) in
  (via r = "gemini" \/ via r = "fallback") /\
  (via r = "fallback" -> List.length (bullets r) = 3%nat) /\
  (via r = "gemini" ->
     exists text,
       service = Return text /\
       bullets r = map bullet_of (numbered_lines text)) /\
  (forall text, service = Return text ->
     (List.length (numbered_lines text) <= 3)%nat ->
     (List.length (bullets r) <= 3)%nat).
Proof.
  cbv zeta.
  destruct (resolver_cases cfg service) as [->|[text [Hs [_ ->]]]].
  - split; [now right|]. split; [reflexivity|].
    split; [discriminate|]. intros ? _ _. simpl. lia.
  - cbn [via bullets]. split; [now left|]. split; [discriminate|]. split.
    + intros _. exists text. split; [exact Hs | apply parse_response_bullets].
    + intros text' Hs' Hle. rewrite Hs in Hs'. injection Hs' as <-.
      now rewrite parse_response_bullets, length_map.
Qed.

(** The amended C9 on a response with two numbered lines. *)
Lemma bullets_and_via_witness :
  (List.length
     (bullets
        (fst (get_preventive_measures_from_gemini
                {| Settings.THRESHOLD_MILD := 0.45;
                   Settings.THRESHOLD_SEVERE := 0.80;
                   Settings.HIGH_RISK_DISEASES := [];
                   Settings.GEMINI_API_KEY := Some "key" |}
                (Return (String.concat (String LF "")
                           [ "1. Rest."; "2. Drink water." ]))))) <= 3)%nat.
Proof.
  refine (proj2 (proj2 (proj2 (bullets_and_via _ _))) _ eq_refl _).
  vm_compute. repeat constructor.
Defined.

(** * Further properties *)

From Stdlib Require Import Permutation NArith.

(** ** [predict_image]: bounds on the result *)






(** ** [predict_image]: what the mapping holds under repeated labels *)

Lemma dict_get_set_same {V} (d : Dict.t V) (k : string) (v : V) :
  Dict.get (Dict.set d k v) k = Some v.
Proof.
  induction d as [|[k' v'] d IH]; simpl.
  - now rewrite String.eqb_refl.
  - destruct (String.eqb_spec k k') as [->|Hne]; simpl.
    + now rewrite String.eqb_refl.
    + destruct (String.eqb_spec k k'); [contradiction | exact IH].
Qed.

Lemma dict_get_set_other {V} (d : Dict.t V) (k k0 : string) (v : V) :
  k0 <> k -> Dict.get (Dict.set d k v) k0 = Dict.get d k0.
Proof.
  intros Hne. induction d as [|[k' v'] d IH]; simpl.
  - destruct (String.eqb_spec k0 k); [contradiction | reflexivity].
  - destruct (String.eqb_spec k k') as [->|Hkk']; simpl.
    + destruct (String.eqb_spec k0 k'); [contradiction | reflexivity].
    + destruct (String.eqb_spec k0 k'); [reflexivity | exact IH].
Qed.

Lemma enumerate_from_snoc {A} (v : list A) (x : A) (s : nat) :
  combine (seq s (List.length (v ++ [x]))) (v ++ [x]) =
  (combine (seq s (List.length v)) v ++ [((s + List.length v)%nat, x)])%list.
Proof.
  revert s. induction v as [|y v IH]; intros s; simpl.
  - now rewrite Nat.add_0_r.
  - rewrite IH. now rewrite Nat.add_succ_r.
Qed.

(** After the loop, the entry under the label of index [i] holds the value
    of the last index that carries the same label. *)
Lemma fold_assign_last_writer (cn : list string) (probs : list Q) :
  forall i, (i < List.length probs)%nat ->
  exists j,
    (i <= j < List.length probs)%nat /\
    registry_label cn j = registry_label cn i /\
    (forall j', (j < j' < List.length probs)%nat ->
                registry_label cn j' <> registry_label cn i) /\
    Dict.get (fold_left (assign cn) (enumerate probs) Dict.empty)
             (registry_label cn i) = Some (nth j probs 0).
Proof.
  induction probs as [|x probs IH] using rev_ind; intros i Hi.
  - simpl in Hi. lia.
  - unfold enumerate. rewrite enumerate_from_snoc, fold_left_app.
    cbn [fold_left]. unfold assign at 1. cbn [fst snd]. simpl Nat.add.
    rewrite length_app in *. cbn [List.length] in *.
    destruct (String.eqb_spec (registry_label cn (List.length probs))
                              (registry_label cn i)) as [Heq|Hne].
    + exists (List.length probs). split; [lia|]. split; [exact Heq|].
      split; [intros j' Hj'; lia|].
      rewrite Heq, dict_get_set_same. now rewrite nth_middle.
    + assert (Hi' : (i < List.length probs)%nat).
      { destruct (Nat.eq_dec i (List.length probs)) as [->|]; [congruence|lia]. }
      destruct (IH i Hi') as [j [Hj [Hlab [Hlast Hget]]]].
      exists j. split; [lia|]. split; [exact Hlab|]. split.
      * intros j' Hj'.
        destruct (Nat.eq_dec j' (List.length probs)) as [->|];
          [exact Hne | apply Hlast; lia].
      * rewrite dict_get_set_other by congruence.
        fold (enumerate probs). rewrite Hget.
        now rewrite app_nth1 by lia.
Qed.

(** X4.  Indices that receive the same label share one entry of the
    mapping, and the entry holds the probability of the last of them: for
    every index i, the mapping at the label of i is the normalized score of
    the largest index with that label. *)
Theorem mapping_keeps_last_index
    (preds : list Q) (class_names : list string) :
  preds <> [] ->
  exists r,
    predict_image preds class_names = Return r /\
    forall i, (i < List.length preds)%nat ->
    exists j,
      (i <= j < List.length preds)%nat /\
      registry_label class_names j = registry_label class_names i /\
      (forall j', (j < j' < List.length preds)%nat ->
         registry_label class_names j' <> registry_label class_names i) /\
      Dict.get (probabilities r) (registry_label class_names i) =
        Some (nth j (normalize_scores preds) 0).
Proof.
  intros Hne.
  destruct (predict_image_returns preds class_names Hne)
    as [k [_ [_ Hr]]].
  eexists. split; [exact Hr|]. cbn [probabilities].
  intros i Hi. rewrite <- (normalize_scores_length preds) in *.
  now apply fold_assign_last_writer.
Qed.

(** X4 on the scores 3, 1 with a one-entry registry whose only label is
    the text "1": both indices are labelled "1" and the entry holds 1/4. *)
Lemma mapping_keeps_last_index_witness :
  exists r,
    predict_image [3; 1] ["1"] = Return r /\
    Dict.get (probabilities r) "1" = Some (1 / 4).
Proof.
  destruct (mapping_keeps_last_index [3; 1] ["1"]) as [r [Hr Hlast]].
  - discriminate.
  - exists r. split; [exact Hr|].
    destruct (Hlast 0%nat) as [j [Hj [_ [Hnone Hget]]]]; [simpl; lia|].
    assert (j = 1%nat) as ->.
    { destruct (Nat.eq_dec j 1) as [|Hj1]; [assumption|].
      exfalso. apply (Hnone 1%nat); [simpl in *; lia | reflexivity]. }
    exact Hget.
Defined.

(** ** [predict_image]: registries that label every index differently *)

Lemma registry_label_covered (cn : list string) (i : nat) :
  (i < List.length cn)%nat -> registry_label cn i = nth i cn "".
Proof.
  intros Hi. unfold registry_label. now rewrite (nth_error_nth' _ "" Hi).
Qed.

Lemma registry_label_uncovered (cn : list string) (i : nat) :
  (List.length cn <= i)%nat -> registry_label cn i = str_of_nat i.
Proof.
  intros Hi. unfold registry_label.
  apply nth_error_None in Hi. now rewrite Hi.
Qed.

(** An empty registry, or one without repetition that covers the vector,
    gives pairwise distinct labels. *)
Lemma labels_distinct (cn : list string) (n : nat) :
  cn = [] \/ (NoDup cn /\ (n <= List.length cn)%nat) ->
  NoDup (map (registry_label cn) (seq 0 n)).
Proof.
  intros Hcn. apply Finite.Injective_map_NoDup_in; [|apply seq_NoDup].
  intros i j Hi Hj E. apply in_seq in Hi, Hj.
  destruct Hcn as [->|[Hnd Hlen]].
  - rewrite !registry_label_uncovered in E by (simpl; lia).
    now apply str_of_nat_inj.
  - rewrite !registry_label_covered in E by lia.
    apply (proj1 (NoDup_nth cn "") Hnd); [lia | lia | exact E].
Qed.

(** X5.  When the registry is empty, or has no repeated name and at least
    as many names as there are scores, the mapping has one entry per index,
    in index order, holding the normalized scores, and the confidence is
    the entry at the returned disease.  With the empty
    registry the keys are the decimal indices; otherwise the disease is a
    name of the registry. *)
Theorem mapping_one_entry_per_index
    (preds : list Q) (class_names : list string) :
  preds <> [] ->
  class_names = [] \/
    (NoDup class_names /\
     (List.length preds <= List.length class_names)%nat) ->
  exists r,
    predict_image preds class_names = Return r /\
    Dict.keys (probabilities r) =
      map (registry_label class_names) (seq 0 (List.length preds)) /\
    Dict.values (probabilities r) = normalize_scores preds /\
    Dict.get (probabilities r) (disease r) = Some (confidence r) /\
    (class_names = [] ->
       Dict.keys (probabilities r) =
         map str_of_nat (seq 0 (List.length preds))) /\
    (class_names <> [] -> In (disease r) class_names).
Proof.
  intros Hne Hcn.
  destruct (predict_image_returns preds class_names Hne)
    as [k [_ [Hfirst Hr]]].
  pose proof (labels_distinct class_names (List.length preds) Hcn) as Hnd.
  set (probs := normalize_scores preds) in *.
  assert (Hlen : List.length probs = List.length preds)
    by apply normalize_scores_length.
  rewrite <- Hlen in Hnd |- *.
  set (labels := map (registry_label class_names)
                     (seq 0 (List.length probs))) in *.
  assert (Hlab : List.length labels = List.length probs).
  { subst labels. now rewrite length_map, length_seq. }
  rewrite (distinct_labels_mapping class_names probs Hnd) in Hr.
  fold labels in Hr.
  assert (Hkeys : Dict.keys (combine labels probs) = labels)
    by now apply combine_keys.
  assert (Hvals : Dict.values (combine labels probs) = probs)
    by now apply combine_values.
  eexists. split; [exact Hr|].
  cbn [probabilities disease confidence class_id].
  rewrite Hkeys, Hvals.
  split; [reflexivity|]. split; [reflexivity|].
  assert (Hk : (k < List.length probs)%nat) by apply Hfirst.
  split; [|split].
  - apply dict_get_In; [now rewrite Hkeys|].
    assert (E : nth k (combine labels probs) ("", 0) =
                (registry_label class_names k, nth k probs 0)).
    { rewrite combine_nth by exact Hlab. f_equal. subst labels.
      rewrite (nth_indep _ "" (registry_label class_names 0%nat))
        by (rewrite length_map, length_seq; exact Hk).
      rewrite map_nth. now rewrite seq_nth by exact Hk. }
    rewrite <- E. apply nth_In. rewrite length_combine. lia.
  - intros ->. subst labels. apply map_ext_in. intros i Hi.
    apply registry_label_uncovered. simpl. lia.
  - intros Hnonempty. destruct Hcn as [->|[_ Hcover]]; [congruence|].
    rewrite registry_label_covered by lia. apply nth_In. lia.
Qed.

(** X5 with the registry that a missing classes file gives. *)
Lemma mapping_one_entry_per_index_witness :
  exists r,
    predict_image [1; 2; 1] [] = Return r /\
    Dict.keys (probabilities r) = ["0"; "1"; "2"] /\
    Dict.get (probabilities r) (disease r) = Some (confidence r).
Proof.
  destruct (mapping_one_entry_per_index [1; 2; 1] [])
    as [r [Hr [_ [_ [Hget [Hkeys _]]]]]].
  - discriminate.
  - now left.
  - exists r. split; [exact Hr|]. split; [exact (Hkeys eq_refl) | exact Hget].
Defined.

(** ** [compute_severity] under any configuration *)

Section SeverityFacts.

Variable cfg : Settings.t.

Let tiers (c : Q) : string :=
  if Qltb c (Settings.THRESHOLD_MILD cfg) then "mild"
  else if Qltb c (Settings.THRESHOLD_SEVERE cfg) then "moderate"
  else "severe".

Lemma compute_severity_unfold (c : Q) (d : string)
    (H : option (list string)) :
  compute_severity cfg c d H =
  if str_in d (match H with
               | None => Settings.HIGH_RISK_DISEASES cfg
               | Some l => l
               end)
  then "severe" else tiers c.
Proof. reflexivity. Qed.

(** X6.  Whatever the thresholds and the high-risk list, a higher
    confidence never gives a lower tier for the same disease. *)
Theorem compute_severity_monotone (c1 c2 : Q) (d : string)
    (H : option (list string)) :
  c1 <= c2 ->
  (tier_rank (compute_severity cfg c1 d H) <=
   tier_rank (compute_severity cfg c2 d H))%nat.
Proof.
  intros Hle. rewrite !compute_severity_unfold.
  destruct (str_in d _); [apply Nat.le_refl|]. unfold tiers.
  destruct (Qltb c2 (Settings.THRESHOLD_MILD cfg)) eqn:E2.
  - apply Qltb_lt in E2.
    assert (E1 : Qltb c1 (Settings.THRESHOLD_MILD cfg) = true)
      by (apply Qltb_lt; eapply Qle_lt_trans; eassumption).
    rewrite E1. apply Nat.le_refl.
  - destruct (Qltb c1 (Settings.THRESHOLD_MILD cfg));
      [destruct (Qltb c2 _); vm_compute; lia|].
    destruct (Qltb c2 (Settings.THRESHOLD_SEVERE cfg)) eqn:F2.
    + apply Qltb_lt in F2.
      assert (F1 : Qltb c1 (Settings.THRESHOLD_SEVERE cfg) = true)
        by (apply Qltb_lt; eapply Qle_lt_trans; eassumption).
      rewrite F1. apply Nat.le_refl.
    + destruct (Qltb c1 _); vm_compute; lia.
Qed.


End SeverityFacts.

(** X6 at the confidences 0.30 and 0.90 under the default thresholds. *)
Lemma compute_severity_monotone_witness :
  (tier_rank (compute_severity Settings.defaults 0.30 "X" None) <=
   tier_rank (compute_severity Settings.defaults 0.90 "X" None))%nat.
Proof.
  apply (compute_severity_monotone Settings.defaults 0.30 0.90 "X" None).
  discriminate.
Defined.


(** ** [validate_uploaded_file]: what acceptance means *)

(** X8.  An upload is accepted exactly when a file is present, its size is
    at most 10 MiB and its extension is one of jpg, jpeg, png; and the
    message is "Valid file" exactly when the upload is accepted. *)
Theorem accepted_iff (uploaded_file : option UploadedFile) :
  (fst (validate_uploaded_file uploaded_file) = true <->
   exists f,
     uploaded_file = Some f /\
     (size f <= 10 * 1024 * 1024)%Z /\
     In (file_extension (name f)) ["jpg"; "jpeg"; "png"]) /\
  (fst (validate_uploaded_file uploaded_file) = true <->
   snd (validate_uploaded_file uploaded_file) = "Valid file").
Proof.
  destruct uploaded_file as [f|].
  - destruct (Z.ltb_spec Settings.MAX_FILE_SIZE (size f)) as [Hlt|Hle].
    + rewrite (validate_over_limit f Hlt). cbn [fst snd]. split; split.
      * discriminate.
      * intros [f' [E [Hsz _]]]. injection E as <-.
        change Settings.MAX_FILE_SIZE with (10 * 1024 * 1024)%Z in Hlt. lia.
      * discriminate.
      * unfold too_large_message. discriminate.
    + rewrite (validate_within_limit f Hle).
      change Settings.SUPPORTED_FORMATS with ["jpg"; "jpeg"; "png"].
      destruct (str_in (file_extension (name f)) ["jpg"; "jpeg"; "png"])
        eqn:E; cbn [fst snd].
      * split; [|split; reflexivity]. split; [|reflexivity].
        intros _. exists f. split; [reflexivity|]. split; [exact Hle|].
        now apply str_in_In.
      * split; split; try discriminate.
        intros [f' [E' [_ Hin]]]. injection E' as <-.
        apply str_in_In in Hin. congruence.
  - cbn. split; split; try discriminate.
    intros [f [E _]]. discriminate.
Qed.

Lemma lower_chr_dot (c : ascii) :
  Ascii.eqb (lower_chr c) "." = Ascii.eqb c ".".
Proof.
  destruct c as [[] [] [] [] [] [] [] []]; reflexivity.
Qed.

Lemma has_dot_lower (s : string) : has_chr "." (lower s) = has_chr "." s.
Proof.
  induction s as [|c s IH]; simpl; [reflexivity|].
  now rewrite lower_chr_dot, IH.
Qed.

(** X9.  Only the text after the last dot counts, in any letter case: a
    file within the size limit whose name ends in a dot followed by jpg,
    jpeg or png (in any mix of cases) is accepted whatever precedes that
    dot, further dots included; and a name that ends in a dot is rejected
    at every size. *)
Theorem last_component_decides :
  (forall stem ext sz,
     (sz <= Settings.MAX_FILE_SIZE)%Z ->
     In (lower ext) ["jpg"; "jpeg"; "png"] ->
     validate_uploaded_file
       (Some {| name := stem ++ String "." ext; size := sz |}) =
       (true, "Valid file")) /\
  (forall stem sz,
     fst (validate_uploaded_file
            (Some {| name := stem ++ String "." ""; size := sz |})) = false).
Proof.
  split.
  - intros stem ext sz Hsz Hin.
    assert (Hdot : has_chr "." ext = false).
    { rewrite <- has_dot_lower.
      destruct Hin as [<-|[<-|[<-|[]]]]; reflexivity. }
    rewrite validate_within_limit by exact Hsz. cbn [name].
    rewrite (file_extension_after_last_dot stem ext Hdot).
    apply str_in_In in Hin.
    change Settings.SUPPORTED_FORMATS with ["jpg"; "jpeg"; "png"].
    now rewrite Hin.
  - intros stem sz.
    destruct (Z.ltb_spec Settings.MAX_FILE_SIZE sz) as [Hlt|Hle].
    + now rewrite validate_over_limit.
    + rewrite validate_within_limit by exact Hle. cbn [name].
      now rewrite (file_extension_after_last_dot stem "" eq_refl).
Qed.

(** X9 on the name archive.tar.PnG of 5 bytes. *)
Lemma last_component_decides_witness :
  validate_uploaded_file
    (Some {| name := "archive.tar.PnG"; size := 5 |}) = (true, "Valid file").
Proof.
  refine (proj1 last_component_decides "archive.tar" "PnG" 5%Z _ _).
  - vm_compute. discriminate.
  - vm_compute. right. right. left. reflexivity.
Defined.

(** ** The advice resolver: warnings, bullets and the consult line *)

Lemma resolver_warnings (cfg : Settings.t) (service : outcome string) :
  snd (get_preventive_measures_from_gemini cfg service) =
  match service with
  | Raise e =>
      if key_set (Settings.GEMINI_API_KEY cfg)
      then ["Gemini API call failed: " ++ e] else []
  | Return _ => []
  end.
Proof.
  unfold get_preventive_measures_from_gemini.
  destruct (key_set _); destruct service as [text|e]; try reflexivity.
  destruct (parse_response text) as [bs c]. now destruct (truthy bs).
Qed.

(** X10.  A warning is shown exactly when a key is configured and the call
    to the service raises; the warning carries the text of the exception.
    A response without any bullet falls back without a warning. *)
Theorem warning_only_on_exception
    (cfg : Settings.t) (service : outcome string) :
  (snd (get_preventive_measures_from_gemini cfg service) <> [] <->
   key_set (Settings.GEMINI_API_KEY cfg) = true /\
   exists e, service = Raise e) /\
  (forall e, key_set (Settings.GEMINI_API_KEY cfg) = true ->
     service = Raise e ->
     snd (get_preventive_measures_from_gemini cfg service) =
       ["Gemini API call failed: " ++ e]) /\
  (forall text, service = Return text ->
     fst (parse_response text) = [] ->
     get_preventive_measures_from_gemini cfg service =
       (get_fallback_measures, [])).
Proof.
  rewrite resolver_warnings. split; [|split].
  - destruct service as [text|e].
    + split; [congruence | intros [_ [e E]]; discriminate].
    + destruct (key_set _).
      * split; [intros _; split; [reflexivity | now exists e] | discriminate].
      * split; [congruence | intros [E _]; discriminate].
  - intros e Hk ->. now rewrite Hk.
  - intros text -> Hnone. unfold get_preventive_measures_from_gemini.
    destruct (key_set _); [|reflexivity].
    destruct (parse_response text) as [bs c]. simpl in Hnone. now subst bs.
Qed.

(** X10 with a key and a refused connection. *)
Lemma warning_only_on_exception_witness :
  snd (get_preventive_measures_from_gemini
         {| Settings.THRESHOLD_MILD := 0.45;
            Settings.THRESHOLD_SEVERE := 0.80;
            Settings.HIGH_RISK_DISEASES := [];
            Settings.GEMINI_API_KEY := Some "key" |}
         (Raise "connection refused")) =
  ["Gemini API call failed: connection refused"].
Proof.
  apply (proj1 (proj2 (warning_only_on_exception
    {| Settings.THRESHOLD_MILD := 0.45;
       Settings.THRESHOLD_SEVERE := 0.80;
       Settings.HIGH_RISK_DISEASES := [];
       Settings.GEMINI_API_KEY := Some "key" |}
    (Raise "connection refused")))); reflexivity.
Defined.

Lemma rstrip_idempotent (s : string) : rstrip (rstrip s) = rstrip s.
Proof.
  induction s as [|c s IH]; [reflexivity|]. cbn [rstrip].
  destruct (rstrip s) as [|c' r] eqn:E.
  - destruct (isspace c) eqn:Ec; [reflexivity|].
    cbn [rstrip]. now rewrite Ec.
  - cbn [rstrip]. cbn [rstrip] in IH. now rewrite IH.
Qed.

(** A string is clean at the front when it is empty or starts with a
    character that is not white space. *)
Lemma lstrip_clean_front (s : string) :
  match lstrip s with
  | EmptyString => True
  | String c _ => isspace c = false
  end.
Proof.
  induction s as [|c s IH]; simpl; [exact I|].
  destruct (isspace c) eqn:E; [exact IH | exact E].
Qed.

Lemma rstrip_keeps_front (s : string) :
  match s with
  | EmptyString => True
  | String c _ => isspace c = false
  end ->
  lstrip (rstrip s) = rstrip s.
Proof.
  destruct s as [|c s]; [reflexivity|]. intros Hc. cbn [rstrip].
  destruct (rstrip s); [rewrite Hc|]; simpl; now rewrite Hc.
Qed.

Lemma strip_idempotent (s : string) : strip (strip s) = strip s.
Proof.
  unfold strip.
  rewrite (rstrip_keeps_front (lstrip s) (lstrip_clean_front s)).
  apply rstrip_idempotent.
Qed.

(** The consult line kept by the loop is the text of the last line that
    sets it. *)
Lemma last_cons_default {A} (l : list A) (a d : A) :
  last (a :: l) d = last l a.
Proof.
  revert a. induction l as [|b l IH]; intros a; [reflexivity|].
  change (last (a :: b :: l) d) with (last (b :: l) d).
  rewrite IH. change (last (b :: l) a) with
    (match l with [] => b | _ :: _ => last l a end).
  destruct l as [|b' l]; [reflexivity|].
  now rewrite <- (IH b), <- (IH a).
Qed.

Lemma fold_parse_line_consult (lines acc : list string) (c : string) :
  snd (fold_left parse_line lines (acc, c)) =
  last (map consult_of
          (filter (fun line =>
                     negb (startswith_any ["1."; "2."; "3."] line) &&
                     contains "doctor" (lower line)) lines)) c.
Proof.
  revert acc c. induction lines as [|line lines IH]; intros acc c.
  - reflexivity.
  - cbn [fold_left filter]. unfold parse_line at 2.
    destruct (startswith_any ["1."; "2."; "3."] line); cbn [negb andb].
    + apply IH.
    + destruct (contains "doctor" (lower line)).
      * rewrite IH. cbn [map]. now rewrite last_cons_default.
      * apply IH.
Qed.

(** X11.  Every result carries at least one bullet, and its bullets and
    its consult line have no white space at either end. *)
Theorem result_texts_stripped (cfg : Settings.t) (service : outcome string) :
  let r := fst (get_preventive_measures_from_gemini cfg service) in
  bullets r <> [] /\
  Forall (fun b => strip b = b) (bullets r) /\
  strip (consult r) = consult r.
Proof.
  cbv zeta.
  destruct (resolver_cases cfg service) as [->|[text [_ [Hne ->]]]].
  - split; [discriminate|]. split; [|reflexivity].
    repeat constructor.
  - cbn [bullets consult]. split; [exact Hne|]. split.
    + rewrite parse_response_bullets. apply Forall_forall.
      intros b Hb. apply in_map_iff in Hb. destruct Hb as [line [<- _]].
      apply strip_idempotent.
    + unfold parse_response. rewrite fold_parse_line_consult.
      generalize (filter
        (fun line => negb (startswith_any ["1."; "2."; "3."] line) &&
                     contains "doctor" (lower line)) (response_lines text)).
      intros l. induction l as [|x l IH] using rev_ind; [reflexivity|].
      rewrite map_app. cbn [map]. rewrite last_last.
      apply strip_idempotent.
Qed.

(** X12.  In a generated result the consult line comes from the last line
    of the response that is not numbered and mentions a doctor in any
    letter case, with the heading "When to see a doctor:" removed; it is
    empty when there is no such line.  A numbered line that mentions a
    doctor becomes a bullet and leaves the consult line alone. *)
Theorem consult_from_last_doctor_line
    (cfg : Settings.t) (text : string) :
  let r := fst (get_preventive_measures_from_gemini cfg (Return text)) in
  via r = "gemini" ->
  consult r = last (map consult_of (doctor_lines text)) "" /\
  bullets r = map bullet_of (numbered_lines text).
Proof.
  cbv zeta.
  destruct (resolver_cases cfg (Return text)) as [->|[text' [Hs [_ ->]]]].
  - discriminate.
  - injection Hs as <-. intros _. cbn [consult bullets]. split.
    + unfold parse_response, doctor_lines.
      apply fold_parse_line_consult.
    + apply parse_response_bullets.
Qed.

(** X12 on a response whose heading line is followed by a second line
    about doctors, and whose third bullet mentions a doctor too. *)
Lemma consult_from_last_doctor_line_witness :
  let text := String.concat (String LF "")
                [ "1. Rest."; "2. Drink water."; "3. Ask your doctor.";
                  "When to see a doctor: if it spreads.";
                  "See a DOCTOR at once if it bleeds." ] in
  consult
    (fst (get_preventive_measures_from_gemini
            {| Settings.THRESHOLD_MILD := 0.45;
               Settings.THRESHOLD_SEVERE := 0.80;
               Settings.HIGH_RISK_DISEASES := [];
               Settings.GEMINI_API_KEY := Some "key" |}
            (Return text))) = "See a DOCTOR at once if it bleeds.".
Proof.
  cbv zeta.
  refine (eq_trans (proj1 (consult_from_last_doctor_line _ _ _)) _);
    reflexivity.
Defined.

(** ** [load_class_names]: index-keyed objects in any key order *)

Lemma str_of_nat_not_classes (i : nat) : str_of_nat i <> "classes".
Proof.
  intros E. apply (f_equal NilZero.uint_of_string) in E.
  unfold str_of_nat in E.
  rewrite NilZero.usu in E by apply to_uint_not_nil. discriminate.
Qed.

Lemma index_object_keys (l : list json) :
  Dict.keys (index_object l) = map str_of_nat (seq 0 (List.length l)).
Proof.
  unfold Dict.keys, index_object. rewrite map_map. cbn [fst].
  rewrite <- (map_map fst str_of_nat). unfold enumerate.
  now rewrite enumerate_fst.
Qed.

Lemma index_object_entry (l : list json) (i : nat) :
  (i < List.length l)%nat ->
  In (str_of_nat i, nth i l JNull) (index_object l).
Proof.
  intros Hi. unfold index_object.
  apply (in_map (fun iv => (str_of_nat (fst iv), snd iv)) _ (i, nth i l JNull)).
  unfold enumerate.
  assert (E : nth i (combine (seq 0 (List.length l)) l) (0%nat, JNull) =
              (i, nth i l JNull)).
  { rewrite combine_nth by apply length_seq.
    now rewrite seq_nth by assumption. }
  rewrite <- E. apply nth_In. rewrite length_combine, length_seq. lia.
Qed.

(** X13.  Storing a list under the decimal forms of its positions and
    loading it back returns the list, in whatever order the entries of the
    object are written. *)
Theorem index_object_round_trip (l : list json) (d : Dict.t json) :
  Permutation (index_object l) d ->
  load_class_names (Content (JDict d)) = Return l.
Proof.
  intros Hperm.
  assert (Hkeys : Permutation (map str_of_nat (seq 0 (List.length l)))
                              (Dict.keys d)).
  { rewrite <- index_object_keys. unfold Dict.keys.
    now apply Permutation_map. }
  assert (Hnd : NoDup (Dict.keys d)).
  { eapply Permutation_NoDup; [exact Hkeys|].
    apply Finite.Injective_map_NoDup; [|apply seq_NoDup].
    intros n m. apply str_of_nat_inj. }
  assert (Hlen : Dict.len d = List.length l).
  { unfold Dict.len. rewrite <- (Permutation_length Hperm).
    unfold index_object, enumerate.
    now rewrite length_map, length_combine, length_seq, Nat.min_id. }
  assert (Hget : forall i, (i < List.length l)%nat ->
            Dict.get d (str_of_nat i) = Some (nth i l JNull)).
  { intros i Hi. apply dict_get_In; [exact Hnd|].
    eapply Permutation_in; [exact Hperm|]. now apply index_object_entry. }
  assert (Hno : no_classes_list d).
  { intros l' E. apply dict_get_Some_key in E.
    apply (Permutation_in _ (Permutation_sym Hkeys)) in E.
    apply in_map_iff in E. destruct E as [i [E _]].
    exact (str_of_nat_not_classes i E). }
  rewrite (load_without_classes_list d Hno), Hlen.
  destruct (by_index_total d (seq 0 (List.length l))) as [l' Hl'].
  { intros i Hi. apply in_seq in Hi.
    eapply dict_get_Some_key. apply Hget. lia. }
  rewrite Hl'. f_equal.
  destruct (by_index_nth _ _ _ Hl') as [Hlen' Hnth].
  rewrite length_seq in Hlen', Hnth.
  apply (nth_ext l' l JNull JNull Hlen').
  intros i Hi. rewrite Hlen' in Hi. specialize (Hnth i Hi).
  rewrite seq_nth in Hnth by assumption. simpl in Hnth.
  rewrite (Hget i Hi) in Hnth. congruence.
Qed.

(** X13 on the list a, b, c written with its keys in the order 2, 0, 1. *)
Lemma index_object_round_trip_witness :
  load_class_names
    (Content (JDict [ ("2", JStr "c"); ("0", JStr "a"); ("1", JStr "b") ])) =
  Return [JStr "a"; JStr "b"; JStr "c"].
Proof.
  apply (index_object_round_trip [JStr "a"; JStr "b"; JStr "c"]).
  change (index_object [JStr "a"; JStr "b"; JStr "c"]) with
    [ ("0", JStr "a"); ("1", JStr "b"); ("2", JStr "c") ].
  apply Permutation_sym, (Permutation_cons_app [_; _] []).
  apply Permutation_refl.
Defined.

(** ** [download_file] *)

Lemma append_assoc (a b c : string) : (a ++ b) ++ c = a ++ (b ++ c).
Proof.
  induction a as [|x a IH]; simpl; [reflexivity | now rewrite IH].
Qed.

Lemma append_nil_r (a : string) : a ++ "" = a.
Proof.
  induction a as [|x a IH]; simpl; [reflexivity | now rewrite IH].
Qed.

(** Skipping the empty chunks changes nothing: the file receives the
    concatenation of what the stream yields. *)
Lemma write_chunks_concat (received : list bytes) (content : bytes) :
  write_chunks received content = content ++ String.concat "" received.
Proof.
  unfold write_chunks. revert content.
  induction received as [|chunk rest IH]; intros content.
  - simpl. now rewrite append_nil_r.
  - cbn [fold_left]. rewrite IH.
    assert (E : String.concat "" (chunk :: rest) =
                chunk ++ String.concat "" rest).
    { destruct rest; simpl; [now rewrite append_nil_r | reflexivity]. }
    rewrite E. destruct (String.eqb_spec chunk "") as [->|_].
    + reflexivity.
    + apply append_assoc.
Qed.

(** Once the status is accepted the destination is rewritten with what
    the stream yields, whether or not the stream reaches its end. *)
Lemma download_file_accepted (net : network) (url dest : string)
    (fs : filesystem) (r : http_response) :
  net url = Return r ->
  status_error r = None ->
  download_file net url dest fs =
  (match broken r with
   | Some e => Raise e
   | None => Return dest
   end,
   Dict.set fs dest (String.concat "" (chunks r))).
Proof.
  intros Hnet Hok. unfold download_file. rewrite Hnet, Hok.
  rewrite write_chunks_concat. cbn [append].
  now destruct (broken r).
Qed.

(** X14.  When the server answers with a success status and the stream
    runs to its end, [download_file] returns the destination path, the
    destination holds the chunks joined in order, and no other file
    changes. *)
Theorem download_complete (net : network) (url dest : string)
    (fs : filesystem) (r : http_response) :
  net url = Return r ->
  status_error r = None ->
  broken r = None ->
  fst (download_file net url dest fs) = Return dest /\
  Dict.get (snd (download_file net url dest fs)) dest =
    Some (String.concat "" (chunks r)) /\
  (forall p, p <> dest ->
     Dict.get (snd (download_file net url dest fs)) p = Dict.get fs p).
Proof.
  intros Hnet Hok Hend.
  rewrite (download_file_accepted net url dest fs r Hnet Hok), Hend.
  cbn [fst snd]. split; [reflexivity|]. split.
  - apply dict_get_set_same.
  - intros p Hp. now apply dict_get_set_other.
Qed.

(** X14 on a stream of three chunks, the second one empty. *)
Lemma download_complete_witness :
  Dict.get
    (snd (download_file
            (fun _ => Return {| status_error := None;
                                chunks := ["ab"; ""; "c"];
                                broken := None |})
            "https://example.org/w.h5" MODEL_H5 [(MODEL_H5, "old")]))
    MODEL_H5 = Some "abc".
Proof.
  exact (proj1 (proj2 (download_complete
    (fun _ => Return {| status_error := None;
                        chunks := ["ab"; ""; "c"];
                        broken := None |})
    "https://example.org/w.h5" MODEL_H5 [(MODEL_H5, "old")]
    {| status_error := None; chunks := ["ab"; ""; "c"]; broken := None |}
    eq_refl eq_refl eq_refl))).
Defined.

(** X15.  A download that fails before the body is read (no connection,
    or an error status) leaves every file as it was, the destination
    included.  A stream that breaks after the status was accepted leaves
    at the destination what was received until then, in place of any
    earlier content. *)
Theorem download_failure (net : network) (url dest : string)
    (fs : filesystem) :
  (forall e, net url = Raise e ->
     download_file net url dest fs = (Raise e, fs)) /\
  (forall r e, net url = Return r -> status_error r = Some e ->
     download_file net url dest fs = (Raise e, fs)) /\
  (forall r e, net url = Return r -> status_error r = None ->
     broken r = Some e ->
     fst (download_file net url dest fs) = Raise e /\
     Dict.get (snd (download_file net url dest fs)) dest =
       Some (String.concat "" (chunks r)) /\
     (forall p, p <> dest ->
        Dict.get (snd (download_file net url dest fs)) p = Dict.get fs p)).
Proof.
  split; [|split].
  - intros e Hnet. unfold download_file. now rewrite Hnet.
  - intros r e Hnet Hst. unfold download_file. now rewrite Hnet, Hst.
  - intros r e Hnet Hok Hbr.
    rewrite (download_file_accepted net url dest fs r Hnet Hok), Hbr.
    cbn [fst snd]. split; [reflexivity|]. split.
    + apply dict_get_set_same.
    + intros p Hp. now apply dict_get_set_other.
Qed.

(** X15 on a stream that breaks after one chunk, over an earlier complete
    file. *)
Lemma download_failure_witness :
  Dict.get
    (snd (download_file
            (fun _ => Return {| status_error := None;
                                chunks := ["ab"];
                                broken := Some "connection reset" |})
            "https://example.org/w.h5" MODEL_H5
            [(MODEL_H5, "a complete model")]))
    MODEL_H5 = Some "ab".
Proof.
  exact (proj1 (proj2 (proj2 (proj2 (download_failure
    (fun _ => Return {| status_error := None;
                        chunks := ["ab"];
                        broken := Some "connection reset" |})
    "https://example.org/w.h5" MODEL_H5 [(MODEL_H5, "a complete model")]))
    {| status_error := None; chunks := ["ab"];
       broken := Some "connection reset" |}
    "connection reset" eq_refl eq_refl eq_refl))).
Defined.

(** ** [load_model] *)

Section LoaderFacts.

Variable model : Type.
Variable keras_load : bytes -> outcome model.
Variable pickle_load : bytes -> outcome model.

Lemma load_model_usable (env : loader_env) (fs : filesystem) :
  tensorflow_usable env ->
  load_model model keras_load pickle_load env fs =
  load_artifacts model keras_load pickle_load env fs.
Proof.
  unfold load_model. intros [H|H]; rewrite H; [reflexivity|].
  now destruct (tensorflow_error env).
Qed.

(** The download writes to [MODEL_H5] only, so the pickle is untouched. *)
Lemma download_keeps_pickle (net : network) (url : string)
    (fs : filesystem) :
  Dict.get (snd (download_file net url MODEL_H5 fs)) MODEL_PKL =
  Dict.get fs MODEL_PKL.
Proof.
  unfold download_file. destruct (net url) as [r|e]; [|reflexivity].
  destruct (status_error r); [reflexivity|].
  assert (E : Dict.get (Dict.set fs MODEL_H5 (write_chunks (chunks r) ""))
                       MODEL_PKL = Dict.get fs MODEL_PKL)
    by (apply dict_get_set_other; discriminate).
  now destruct (broken r).
Qed.

Lemma load_from_pickle_result (fs : filesystem) (log : list ui_message) :
  fst (fst (load_from_pickle model pickle_load fs log)) =
  match pickle_attempt model pickle_load fs with
  | Return m => Return m
  | Raise _ => Raise "No model artifact found."
  end.
Proof.
  unfold load_from_pickle, pickle_attempt.
  destruct (Dict.get fs MODEL_PKL) as [content|]; [|reflexivity].
  now destruct (pickle_load content).
Qed.

Lemma load_from_url_result (env : loader_env) (fs : filesystem)
    (log : list ui_message) :
  fst (fst (load_from_url model keras_load pickle_load env fs log)) =
  match url_attempt model keras_load env fs with
  | Return m => Return m
  | Raise _ =>
      match pickle_attempt model pickle_load fs with
      | Return m => Return m
      | Raise _ => Raise "No model artifact found."
      end
  end.
Proof.
  unfold load_from_url, url_attempt.
  destruct (WEIGHTS_URL env) as [url|];
    [|apply load_from_pickle_result].
  destruct (String.eqb url ""); [apply load_from_pickle_result|].
  pose proof (download_keeps_pickle (net_of env) url fs) as Hpkl.
  destruct (download_file (net_of env) url MODEL_H5 fs) as [[p|e] fs'];
    cbn [snd] in Hpkl.
  - destruct (load_h5 model keras_load fs') as [m|e]; [reflexivity|].
    rewrite load_from_pickle_result. unfold pickle_attempt.
    now rewrite Hpkl.
  - rewrite load_from_pickle_result. unfold pickle_attempt.
    now rewrite Hpkl.
Qed.

(** X16.  With TensorFlow importable, [load_model] returns the model of
    the first attempt that succeeds, in the order: the local
    [best_model.h5], the download from [WEIGHTS_URL], the local
    [best_model.pkl]; it raises, with "No model artifact found.", exactly
    when all three fail. *)
Theorem load_model_first_success (env : loader_env) (fs : filesystem) :
  tensorflow_usable env ->
  fst (fst (load_model model keras_load pickle_load env fs)) =
    first_success model (load_h5 model keras_load fs) (url_attempt model keras_load env fs)
                  (pickle_attempt model pickle_load fs) /\
  ((exists e, fst (fst (load_model model keras_load pickle_load env fs)) = Raise e) <->
   (forall m, load_h5 model keras_load fs <> Return m) /\
   (forall m, url_attempt model keras_load env fs <> Return m) /\
   (forall m, pickle_attempt model pickle_load fs <> Return m)).
Proof.
  intros Htf.
  assert (E : fst (fst (load_model model keras_load pickle_load env fs)) =
              first_success model (load_h5 model keras_load fs) (url_attempt model keras_load env fs)
                            (pickle_attempt model pickle_load fs)).
  { rewrite (load_model_usable env fs Htf). unfold load_artifacts.
    unfold load_h5, first_success.
    destruct (Dict.get fs MODEL_H5) as [content|].
    - destruct (keras_load content) as [m|e]; [reflexivity|].
      rewrite load_from_url_result.
      destruct (url_attempt model keras_load env fs); [reflexivity|].
      now destruct (pickle_attempt model pickle_load fs).
    - rewrite load_from_url_result.
      destruct (url_attempt model keras_load env fs); [reflexivity|].
      now destruct (pickle_attempt model pickle_load fs). }
  split; [exact E|]. rewrite E. unfold first_success.
  destruct (load_h5 model keras_load fs) as [m1|e1], (url_attempt model keras_load env fs) as [m2|e2],
    (pickle_attempt model pickle_load fs) as [m3|e3]; split;
    try (intros [e He]; discriminate);
    try (intros [H1 [H2 H3]];
         first [now elim (H1 m1) | now elim (H2 m2) | now elim (H3 m3)]).
  - intros _. repeat split; discriminate.
  - intros _. now exists "No model artifact found.".
Qed.

(** A local [best_model.h5] that loads is returned at once: no file
    changes and nothing is shown. *)
Lemma load_model_local (env : loader_env) (fs : filesystem)
    (content : bytes) (m : model) :
  tensorflow_usable env ->
  Dict.get fs MODEL_H5 = Some content ->
  keras_load content = Return m ->
  load_model model keras_load pickle_load env fs = (Return m, fs, []).
Proof.
  intros Htf Hfile Hload. rewrite (load_model_usable env fs Htf).
  unfold load_artifacts. now rewrite Hfile, Hload.
Qed.

(** X17.  When the local file is missing or fails to load, a URL is
    configured, the download completes and the downloaded bytes load, the
    model is returned and [best_model.h5] now holds those bytes; a further
    call then returns the same model from the file, with nothing shown,
    whatever the network does. *)
Theorem download_then_local (env : loader_env) (fs : filesystem)
    (url : string) (r : http_response) (m : model) :
  tensorflow_usable env ->
  (forall m', load_h5 model keras_load fs <> Return m') ->
  WEIGHTS_URL env = Some url -> url <> "" ->
  net_of env url = Return r ->
  status_error r = None -> broken r = None ->
  keras_load (String.concat "" (chunks r)) = Return m ->
  exists fs' log,
    load_model model keras_load pickle_load env fs =
      (Return m, fs', log) /\
    Dict.get fs' MODEL_H5 = Some (String.concat "" (chunks r)) /\
    forall env', tensorflow_usable env' ->
      load_model model keras_load pickle_load env' fs' =
        (Return m, fs', []).
Proof.
  intros Htf Hlocal Hurl Hne Hnet Hok Hend Hload.
  pose proof (download_file_accepted (net_of env) url MODEL_H5 fs r
                Hnet Hok) as Hd.
  rewrite Hend in Hd.
  set (fs' := Dict.set fs MODEL_H5 (String.concat "" (chunks r))) in *.
  assert (Hfile : Dict.get fs' MODEL_H5 = Some (String.concat "" (chunks r)))
    by apply dict_get_set_same.
  assert (Hurl_branch : forall log,
    load_from_url model keras_load pickle_load env fs log =
    (Return m, fs', log)).
  { intros log. unfold load_from_url. rewrite Hurl.
    destruct (String.eqb_spec url ""); [contradiction|].
    rewrite Hd. unfold load_h5. now rewrite Hfile, Hload. }
  assert (Hfirst : exists log, load_model model keras_load pickle_load env fs =
      (Return m, fs', log)).
  { rewrite (load_model_usable env fs Htf). unfold load_artifacts.
    unfold load_h5 in Hlocal.
    destruct (Dict.get fs MODEL_H5) as [content|].
    - destruct (keras_load content) as [m'|e].
      + now elim (Hlocal m').
      + eexists. apply Hurl_branch.
    - eexists. apply Hurl_branch. }
  destruct Hfirst as [log Hfirst].
  exists fs', log. split; [exact Hfirst|]. split; [exact Hfile|].
  intros env' Htf'.
  exact (load_model_local env' fs' _ m Htf' Hfile Hload).
Qed.

End LoaderFacts.

(** X16 where only the pickle is present: it is the one that is
    returned. *)
Lemma load_model_first_success_witness :
  fst (fst (load_model string
              (fun content => Raise "not an HDF5 file")
              (fun content => Return content)
              {| tensorflow_error := None; tensorflow_cpu := false;
                 WEIGHTS_URL := None;
                 net_of := fun _ => Raise "offline" |}
              [(MODEL_PKL, "pickled model")])) = Return "pickled model".
Proof.
  refine (eq_trans (proj1 (load_model_first_success string _ _ _ _ _)) _).
  - left. reflexivity.
  - reflexivity.
Defined.

(** X17 on an empty directory and a download in two chunks. *)
Lemma download_then_local_witness :
  exists fs' log,
    load_model string (fun content => Return content)
      (fun content => Raise "not a pickle")
      {| tensorflow_error := None; tensorflow_cpu := false;
         WEIGHTS_URL := Some "https://example.org/w.h5";
         net_of := fun _ => Return {| status_error := None;
                                      chunks := ["wei"; "ghts"];
                                      broken := None |} |}
      [] = (Return "weights", fs', log) /\
    Dict.get fs' MODEL_H5 = Some "weights".
Proof.
  destruct (download_then_local string (fun content => Return content)
              (fun content => Raise "not a pickle")
              {| tensorflow_error := None; tensorflow_cpu := false;
                 WEIGHTS_URL := Some "https://example.org/w.h5";
                 net_of := fun _ => Return {| status_error := None;
                                              chunks := ["wei"; "ghts"];
                                              broken := None |} |}
              [] "https://example.org/w.h5"
              {| status_error := None; chunks := ["wei"; "ghts"];
                 broken := None |} "weights")
    as [fs' [log [Hload [Hfile _]]]];
    try reflexivity.
  - left. reflexivity.
  - intros m'. discriminate.
  - discriminate.
  - exists fs', log. split; [exact Hload | exact Hfile].
Defined.

(** ** [perform_analysis] *)

Lemma predict_image_empty (class_names : list string) :
  predict_image [] class_names =
  Raise "attempt to get argmax of an empty sequence".
Proof. reflexivity. Qed.

Lemma perform_analysis_returns
    (cfg : Settings.t) (preds : list Q) (class_names : list string)
    (service : outcome string) (history : list history_entry)
    (r : PredictionResult) :
  predict_image preds class_names = Return r ->
  perform_analysis cfg (Return preds) class_names service history =
  (Some {| prediction := r;
           severity := compute_severity cfg (confidence r) (disease r) None;
           measures := fst (get_preventive_measures_from_gemini cfg service)
         |},
   ([ Progress 0; ClearStatus;
      Status "🔄 Preprocessing image..."; Progress 25;
      Status "🧠 Running AI analysis..."; Progress 50;
      Status "📊 Computing severity..."; Progress 75;
      Status "💡 Generating recommendations..."; Progress 90 ] ++
    map (fun w => Message (Warning w))
        (snd (get_preventive_measures_from_gemini cfg service)) ++
    [ Progress 100; Status "✅ Analysis complete!";
      ClearProgress; ClearStatus ])%list,
   (history ++
    [ {| entry_disease := disease r;
         entry_confidence := confidence r;
         entry_severity :=
           compute_severity cfg (confidence r) (disease r) None |} ])%list).
Proof.
  intros Hr. unfold perform_analysis, predict_image_call. rewrite Hr.
  now destruct (get_preventive_measures_from_gemini cfg service).
Qed.

(** X18.  [perform_analysis] returns nothing exactly when inference
    raises or the model yields no score at all.  In that case nothing is
    added to the history, the page gets one error message, and the
    progress bar and the status text are not cleared: they stay at 50 and
    at the text of the step that failed. *)
Theorem analysis_fails_iff
    (cfg : Settings.t) (inference : outcome (list Q))
    (class_names : list string) (service : outcome string)
    (history : list history_entry) :
  (fst (fst (perform_analysis cfg inference class_names service history)) =
     None <->
   (exists e, inference = Raise e) \/ inference = Return []) /\
  ((exists e, inference = Raise e) \/ inference = Return [] ->
   exists e,
     perform_analysis cfg inference class_names service history =
     (None,
      [ Progress 0; ClearStatus;
        Status "🔄 Preprocessing image..."; Progress 25;
        Status "🧠 Running AI analysis..."; Progress 50;
        Message (Error ("❌ Analysis failed: " ++ e)) ],
      history)).
Proof.
  assert (Hfail : (exists e, inference = Raise e) \/ inference = Return [] ->
    exists e,
      perform_analysis cfg inference class_names service history =
      (None,
       [ Progress 0; ClearStatus;
         Status "🔄 Preprocessing image..."; Progress 25;
         Status "🧠 Running AI analysis..."; Progress 50;
         Message (Error ("❌ Analysis failed: " ++ e)) ],
       history)).
  { intros [[e ->]| ->];
      [now exists e
      | now exists "attempt to get argmax of an empty sequence"]. }
  split; [|exact Hfail]. split.
  - intros Hnone. destruct inference as [preds|e]; [|left; now exists e].
    destruct preds as [|x preds]; [now right|]. exfalso.
    destruct (predict_image_returns (x :: preds) class_names)
      as [k [_ [_ Hr]]]; [discriminate|].
    rewrite (perform_analysis_returns _ _ _ _ _ _ Hr) in Hnone.
    discriminate.
  - intros H. destruct (Hfail H) as [e He]. now rewrite He.
Qed.

(** X18 when the image cannot be decoded. *)
Lemma analysis_fails_iff_witness :
  fst (fst (perform_analysis Settings.defaults
              (Raise "cannot identify image file") ["a"; "b"]
              (Return "1. Rest.") [])) = None.
Proof.
  apply (proj2 (proj1 (analysis_fails_iff Settings.defaults
              (Raise "cannot identify image file") ["a"; "b"]
              (Return "1. Rest.") []))).
  left. now exists "cannot identify image file".
Defined.

(** X19.  On every non-empty score vector the analysis succeeds whatever
    the advice service does, an exception included: the result carries the
    prediction, the severity computed from its confidence and disease with
    the configured high-risk list, and the advice; the history grows by
    exactly one entry holding that disease, confidence and severity; no
    error is shown and both widgets are cleared at the end. *)
Theorem analysis_success
    (cfg : Settings.t) (preds : list Q) (class_names : list string)
    (service : outcome string) (history : list history_entry) :
  preds <> [] ->
  exists r res events,
    predict_image preds class_names = Return r /\
    perform_analysis cfg (Return preds) class_names service history =
      (Some res, events,
       (history ++ [ {| entry_disease := disease r;
                        entry_confidence := confidence r;
                        entry_severity := severity res |} ])%list) /\
    prediction res = r /\
    severity res =
      compute_severity cfg (confidence r) (disease r)
        (Some (Settings.HIGH_RISK_DISEASES cfg)) /\
    measures res = fst (get_preventive_measures_from_gemini cfg service) /\
    (forall text, ~ In (Message (Error text)) events) /\
    (exists before, events = (before ++ [ClearProgress; ClearStatus])%list).
Proof.
  intros Hne.
  destruct (predict_image_returns preds class_names Hne) as [k [_ [_ Hr]]].
  remember {| class_id := k;
              disease := registry_label class_names k;
              confidence := nth k (normalize_scores preds) 0;
              probabilities :=
                fold_left (assign class_names)
                  (enumerate (normalize_scores preds)) Dict.empty |} as r.
  pose proof (perform_analysis_returns cfg preds class_names service
                history r Hr) as Hrun.
  exists r,
    {| prediction := r;
       severity := compute_severity cfg (confidence r) (disease r) None;
       measures := fst (get_preventive_measures_from_gemini cfg service) |}.
  eexists. split; [exact Hr|]. split; [exact Hrun|].
  cbn [prediction severity measures].
  split; [reflexivity|]. split; [reflexivity|]. split; [reflexivity|].
  split.
  - intros text Hin. apply in_app_or in Hin. destruct Hin as [Hin|Hin].
    + simpl in Hin. repeat destruct Hin as [Hin|Hin]; try discriminate.
      exact Hin.
    + apply in_app_or in Hin. destruct Hin as [Hin|Hin].
      * apply in_map_iff in Hin. destruct Hin as [w [E _]]. discriminate.
      * simpl in Hin. repeat destruct Hin as [Hin|Hin]; try discriminate.
        exact Hin.
  - eexists. rewrite !app_assoc.
    change [Progress 100; Status "✅ Analysis complete!";
            ClearProgress; ClearStatus]
      with ([Progress 100; Status "✅ Analysis complete!"] ++
            [ClearProgress; ClearStatus])%list.
    rewrite app_assoc. reflexivity.
Qed.

(** X19 with an advice service that times out. *)
Lemma analysis_success_witness :
  exists res events history,
    perform_analysis
      {| Settings.THRESHOLD_MILD := 0.45;
         Settings.THRESHOLD_SEVERE := 0.80;
         Settings.HIGH_RISK_DISEASES := ["melanoma"];
         Settings.GEMINI_API_KEY := Some "key" |}
      (Return [1; 2; 1]) ["acne"; "melanoma"; "eczema"]
      (Raise "timed out") [] = (Some res, events, history) /\
    severity res = "severe" /\
    List.length history = 1%nat.
Proof.
  destruct (analysis_success
      {| Settings.THRESHOLD_MILD := 0.45;
         Settings.THRESHOLD_SEVERE := 0.80;
         Settings.HIGH_RISK_DISEASES := ["melanoma"];
         Settings.GEMINI_API_KEY := Some "key" |}
      [1; 2; 1] ["acne"; "melanoma"; "eczema"] (Raise "timed out") [])
    as [r [res [events [Hr [Hrun [_ [Hsev _]]]]]]].
  - discriminate.
  - exists res, events. eexists. split; [exact Hrun|].
    split; [|reflexivity]. rewrite Hsev.
    vm_compute in Hr. injection Hr as <-. reflexivity.
Defined.

(** ** [preprocess_image_bytes] *)

Lemma sample_unit_interval (b : ascii) : 0 <= sample b /\ sample b <= 1.
Proof.
  unfold sample. pose proof (N_ascii_bounded b) as Hb. split.
  - apply Qle_shift_div_l; [reflexivity|]. rewrite Qmult_0_l.
    unfold Qle. simpl. lia.
  - apply Qle_shift_div_r; [reflexivity|]. rewrite Qmult_1_l.
    unfold Qle. simpl. lia.
Qed.

(** X22.  When the image decodes, the tensor has the rows and columns of
    the decoded image, three channels per pixel, and every sample lies
    between 0 and 1; when decoding raises, the exception is passed on. *)
Theorem tensor_in_unit_interval
    (open_rgb_resized : bytes -> outcome rgb_image) (image_bytes : bytes) :
  (forall img, open_rgb_resized image_bytes = Return img ->
     exists tensor,
       preprocess_image_bytes open_rgb_resized image_bytes = Return tensor /\
       map (fun row => List.length row) tensor =
         map (fun row => List.length row) img /\
       Forall (Forall (fun px =>
                 List.length px = 3%nat /\
                 Forall (fun x => 0 <= x /\ x <= 1) px)) tensor) /\
  (forall e, open_rgb_resized image_bytes = Raise e ->
     preprocess_image_bytes open_rgb_resized image_bytes = Raise e).
Proof.
  unfold preprocess_image_bytes. split.
  - intros img ->. eexists. split; [reflexivity|]. split.
    + rewrite map_map. apply map_ext. intros row. apply length_map.
    + apply Forall_forall. intros row Hrow.
      apply in_map_iff in Hrow. destruct Hrow as [row0 [<- _]].
      apply Forall_forall. intros px Hpx.
      apply in_map_iff in Hpx. destruct Hpx as [[[r g] b] [<- _]].
      split; [reflexivity|].
      repeat constructor; apply sample_unit_interval.
  - intros e ->. reflexivity.
Qed.

(** X22 on a decoder that yields one row of two pixels. *)
Lemma tensor_in_unit_interval_witness :
  exists tensor,
    preprocess_image_bytes
      (fun _ => Return [[("255"%char, "000"%char, "051"%char);
                         ("000"%char, "000"%char, "000"%char)]])
      "raw bytes" = Return tensor /\
    map (fun row => List.length row) tensor = [2%nat].
Proof.
  destruct (proj1 (tensor_in_unit_interval
              (fun _ => Return [[("255"%char, "000"%char, "051"%char);
                                 ("000"%char, "000"%char, "000"%char)]])
              "raw bytes") _ eq_refl) as [tensor [Ht [Hshape _]]].
  exists tensor. split; [exact Ht | exact Hshape].
Defined.

(** ** [image_file_to_base64] *)

(** Induction three characters at a time. *)
Lemma string_ind3 (P : string -> Prop) :
  P "" ->
  (forall a, P (String a "")) ->
  (forall a b, P (String a (String b ""))) ->
  (forall a b c rest, P rest -> P (String a (String b (String c rest)))) ->
  forall s, P s.
Proof.
  intros H0 H1 H2 H3 s.
  assert (H : P s /\ (forall a, P (String a s)) /\
              (forall a b, P (String a (String b s)))).
  { induction s as [|c s [IHs [IH1 IH2]]].
    - repeat split; auto.
    - split; [apply IH1|]. split; [intros a; apply IH2|].
      intros a b. apply H3, IHs. }
  apply H.
Qed.

(** X23.  The base64 text of n bytes has 4 * ceil(n / 3) characters. *)
Theorem base64_length (image_bytes : bytes) :
  String.length (image_file_to_base64 image_bytes) =
  (4 * ((String.length image_bytes + 2) / 3))%nat.
Proof.
  unfold image_file_to_base64.
  induction image_bytes as [| a | a b | a b c rest IH] using string_ind3;
    try reflexivity.
  cbn [b64encode String.length]. rewrite IH.
  replace (S (S (S (String.length rest))) + 2)%nat
    with (String.length rest + 2 + 1 * 3)%nat by lia.
  rewrite Nat.div_add by discriminate. lia.
Qed.

Lemma b64_value_char (n : N) :
  (n < 64)%N -> b64_value (b64_char n) = Some n.
Proof.
  intros Hn.
  assert (Hall : forallb
            (fun k => match b64_value (b64_char (N.of_nat k)) with
                      | Some v => N.eqb v (N.of_nat k)
                      | None => false
                      end) (seq 0 64) = true) by (vm_compute; reflexivity).
  rewrite forallb_forall in Hall.
  specialize (Hall (N.to_nat n)). rewrite N2Nat.id in Hall.
  assert (Hin : In (N.to_nat n) (seq 0 64)) by (apply in_seq; lia).
  specialize (Hall Hin).
  destruct (b64_value (b64_char n)) as [v|]; [|discriminate].
  apply N.eqb_eq in Hall. now subst.
Qed.

Lemma b64_char_not_pad (n : N) :
  (n < 64)%N -> Ascii.eqb (b64_char n) "=" = false.
Proof.
  intros Hn. destruct (Ascii.eqb_spec (b64_char n) "=") as [E|]; [|reflexivity].
  pose proof (b64_value_char n Hn) as Hv. rewrite E in Hv. discriminate.
Qed.

Lemma sextets_bounded (x y z : N) :
  (x < 256 -> y < 256 -> z < 256 ->
   x / 4 < 64 /\ x mod 4 * 16 < 64 /\ x mod 4 * 16 + y / 16 < 64 /\
   y mod 16 * 4 < 64 /\ y mod 16 * 4 + z / 64 < 64 /\ z mod 64 < 64)%N.
Proof.
  intros. zify. Z.to_euclidean_division_equations. lia.
Qed.

Lemma rebuild_first_padded (x : N) :
  (x < 256 -> x / 4 * 4 + (x mod 4 * 16) / 16 = x)%N.
Proof. intros. zify. Z.to_euclidean_division_equations. lia. Qed.

Lemma rebuild_first (x y : N) :
  (x < 256 -> y < 256 ->
   x / 4 * 4 + (x mod 4 * 16 + y / 16) / 16 = x)%N.
Proof. intros. zify. Z.to_euclidean_division_equations. lia. Qed.

Lemma rebuild_second_padded (x y : N) :
  (x < 256 -> y < 256 ->
   (x mod 4 * 16 + y / 16) mod 16 * 16 + (y mod 16 * 4) / 4 = y)%N.
Proof. intros. zify. Z.to_euclidean_division_equations. lia. Qed.

Lemma rebuild_second (x y z : N) :
  (x < 256 -> y < 256 -> z < 256 ->
   (x mod 4 * 16 + y / 16) mod 16 * 16 +
   (y mod 16 * 4 + z / 64) / 4 = y)%N.
Proof. intros. zify. Z.to_euclidean_division_equations. lia. Qed.

Lemma rebuild_third (y z : N) :
  (y < 256 -> z < 256 ->
   (y mod 16 * 4 + z / 64) mod 4 * 64 + z mod 64 = z)%N.
Proof. intros. zify. Z.to_euclidean_division_equations. lia. Qed.

(** X24.  The base64 text determines the bytes: decoding the text of an
    image gives the image back, so two different images never have the
    same text. *)
Theorem base64_round_trip :
  (forall image_bytes,
     b64decode (image_file_to_base64 image_bytes) = Some image_bytes) /\
  (forall a b,
     image_file_to_base64 a = image_file_to_base64 b -> a = b).
Proof.
  assert (Hrt : forall data, b64decode (b64encode data) = Some data).
  { induction data as [| a | a b | a b c rest IH] using string_ind3.
    - reflexivity.
    - pose proof (N_ascii_bounded a) as Ha.
      destruct (sextets_bounded _ _ _ Ha Ha Ha) as (H1 & H2 & _).
      pose proof (rebuild_first_padded _ Ha) as R1.
      cbn [b64encode b64decode]. cbv zeta.
      rewrite !b64_value_char by assumption.
      cbn [Ascii.eqb Bool.eqb andb String.eqb]. cbv zeta.
      now rewrite R1, ascii_N_embedding.
    - pose proof (N_ascii_bounded a) as Ha.
      pose proof (N_ascii_bounded b) as Hb.
      destruct (sextets_bounded _ _ _ Ha Hb Hb) as (H1 & _ & H2 & H3 & _).
      pose proof (rebuild_first _ _ Ha Hb) as R1.
      pose proof (rebuild_second_padded _ _ Ha Hb) as R2.
      cbn [b64encode b64decode]. cbv zeta.
      rewrite !b64_value_char by assumption.
      rewrite (b64_char_not_pad _ H3).
      cbn [Ascii.eqb Bool.eqb andb String.eqb]. cbv zeta.
      now rewrite R1, R2, !ascii_N_embedding.
    - pose proof (N_ascii_bounded a) as Ha.
      pose proof (N_ascii_bounded b) as Hb.
      pose proof (N_ascii_bounded c) as Hc.
      destruct (sextets_bounded _ _ _ Ha Hb Hc)
        as (H1 & _ & H2 & _ & H3 & H4).
      pose proof (rebuild_first _ _ Ha Hb) as R1.
      pose proof (rebuild_second _ _ _ Ha Hb Hc) as R2.
      pose proof (rebuild_third _ _ Hb Hc) as R3.
      cbn [b64encode b64decode]. cbv zeta.
      rewrite !b64_value_char by assumption.
      rewrite (b64_char_not_pad _ H3), (b64_char_not_pad _ H4).
      rewrite IH. cbn [option_map].
      now rewrite R1, R2, R3, !ascii_N_embedding. }
  split; [exact Hrt|].
  intros a b E. unfold image_file_to_base64 in E.
  apply (f_equal b64decode) in E. rewrite !Hrt in E. congruence.
Qed.
